(** * Movie recommendation from Spark ALS embeddings

    A shallow embedding of the notebook
    "05. Python使用SparkALS矩阵分解实现电影推荐": the cells that rank the
    movies for one target user (cells 23 to 41), the configuration of the
    ALS estimator (cell 12), and the library operations those cells call
    (pandas filtering, sorting, [head], [merge]; scipy's cosine distance;
    Spark's cold-start handling), each written after its documented
    behaviour.

    Numbers are binary64 floats ([PrimFloat.float]), as numpy and pandas
    hold them; identifiers are [Z]; the watched set is a [gset Z]; Python
    exceptions are the left summand of [result].

    The training and the export of the factors (cells 1 to 20) and the
    reading and parsing of the four files (cells 25 and 26) are calls
    into Spark, pandas and json on a solver and on text; the model
    starts from the tables as cell 26 leaves them. *)

From Stdlib Require Import ZArith List String Floats Reals Lra Lia.
From stdpp Require Import base option gmap sets list sorting strings.

(** ** Python exceptions and the result monad *)

Inductive exn : Type :=
  | IndexError
  | ValueError
  | KeyError (column : string)
  | NameError (name : string).

Definition result (A : Type) : Type := (exn + A)%type.

Definition raise {A} (e : exn) : result A := inl e.

#[global] Instance result_ret : MRet result := λ A x, inr x.
#[global] Instance result_bind : MBind result := λ A B f m,
  match m with
  | inl e => inl e
  | inr x => f x
  end.

(** Reading a notebook variable that no cell has assigned yet. *)
Definition lookup_var {A} (name : string) (v : option A) : result A :=
  match v with
  | Some x => mret x
  | None => raise (NameError name)
  end.

(** [Series.map f]: apply [f] to every element, from the first to the
    last; the first exception aborts the whole map. *)
Fixpoint series_map {A B} (f : A → result B) (l : list A) : result (list B) :=
  match l with
  | [] => mret []
  | x :: l' => y ← f x; ys ← series_map f l'; mret (y :: ys)
  end.

(** ** The numeric kernel

    Python's arithmetic is duck-typed; the kernel is written once over an
    interface and read at two instances: binary64, which is what the
    notebook computes with, and the real numbers, which is what the
    formula means in exact arithmetic. *)

Class Arith (T : Type) := {
  num0 : T;
  num1 : T;
  num2 : T;
  num_add : T → T → T;
  num_sub : T → T → T;
  num_mul : T → T → T;
  num_div : T → T → T;
  num_sqrt : T → T;
  num_ltb : T → T → bool;
}.

#[global] Instance binary64 : Arith float := {|
  num0 := 0%float;
  num1 := 1%float;
  num2 := 2%float;
  num_add := PrimFloat.add;
  num_sub := PrimFloat.sub;
  num_mul := PrimFloat.mul;
  num_div := PrimFloat.div;
  num_sqrt := PrimFloat.sqrt;
  num_ltb := PrimFloat.ltb;
|}.

#[global] Instance exact : Arith R := {|
  num0 := 0%R;
  num1 := 1%R;
  num2 := 2%R;
  num_add := Rplus;
  num_sub := Rminus;
  num_mul := Rmult;
  num_div := Rdiv;
  num_sqrt := R_sqrt.sqrt;
  num_ltb := λ a b, if Rlt_dec a b then true else false;
|}.

Section kernel.
Context {T : Type} `{Arith T}.

(** [np.dot(u, v)] on two one-dimensional arrays of equal length. The
    order in which the products are accumulated is the library's
    business; it only matters for binary64 rounding. *)
Definition dot (u v : list T) : T :=
  fold_left (λ acc p, num_add acc (num_mul p.1 p.2)) (zip u v) num0.

(** [np.clip(x, lo, hi)]; a NaN compares false both times and passes
    through. *)
Definition clip (x lo hi : T) : T :=
  if num_ltb x lo then lo else if num_ltb hi x then hi else x.

(** [scipy.spatial.distance.cosine(u, v)]: the cosine distance
    [1 - u.v / sqrt (u.u * v.v)], clipped to the interval from 0 to 2.
    Releases differ in this guard against rounding (none at first, an
    absolute value, then the clip); what is computed before the guard is
    the same. Arrays of different lengths are refused with a
    [ValueError]. *)
Definition cosine (u v : list T) : result T :=
  if decide (length u = length v) then
    let uv := dot u v in
    let uu := dot u u in
    let vv := dot v v in
    let dist := num_sub num1 (num_div uv (num_sqrt (num_mul uu vv))) in
    mret (clip dist num0 num2)
  else raise ValueError.

(** The lambda of cell 32: [lambda x : 1 - distance.cosine(user_embedding, x)]. *)
Definition sim_value_of (user_embedding x : list T) : result T :=
  d ← cosine user_embedding x; mret (num_sub num1 d).
End kernel.

(** ** The tables

    One record per row, named after the columns the notebook uses. *)

Definition vector : Type := list float.

(** ratings.csv: userId, movieId, rating, timestamp *)
Module Rating.
Record row : Type := mk {
  userId : Z;
  movieId : Z;
  rating : float;
  timestamp : Z;
}.
End Rating.

(** movies.csv: movieId, title, genres *)
Module Movie.
Record row : Type := mk {
  movieId : Z;
  title : string;
  genres : string;
}.
End Movie.

(** The embedding files, after cell 26 has turned the text of the
    [features] column into arrays: id, features *)
Module Embedding.
Record row : Type := mk {
  id : Z;
  features : vector;
}.
End Embedding.

(** The item embedding table once cell 32 has added the [sim_value]
    column: id, features, sim_value *)
Module Scored.
Record row : Type := mk {
  id : Z;
  features : vector;
  sim_value : float;
}.
Definition base (r : row) : Embedding.row :=
  Embedding.mk (id r) (features r).
End Scored.

(** [df_target_movieIds]: id, sim_value *)
Module Target.
Record row : Type := mk {
  id : Z;
  sim_value : float;
}.
Definition of_scored (r : Scored.row) : row :=
  mk (Scored.id r) (Scored.sim_value r).
End Target.

(** The frame [pd.merge] returns in cell 41: the columns of the left
    frame followed by those of the right one. *)
Module Merged.
Record row : Type := mk {
  id : Z;
  sim_value : float;
  movieId : Z;
  title : string;
  genres : string;
}.
Definition join (l : Target.row) (m : Movie.row) : row :=
  mk (Target.id l) (Target.sim_value l)
     (Movie.movieId m) (Movie.title m) (Movie.genres m).
End Merged.

(** The table cell 41 shows: movieId, title, genres, sim_value *)
Module Shown.
Record row : Type := mk {
  movieId : Z;
  title : string;
  genres : string;
  sim_value : float;
}.
Definition of_merged (r : Merged.row) : row :=
  mk (Merged.movieId r) (Merged.title r) (Merged.genres r) (Merged.sim_value r).
End Shown.

(** [df_movie_embedding] has two columns until cell 32 runs and three
    afterwards. *)
Inductive item_frame : Type :=
  | Plain (rows : list Embedding.row)
  | WithSim (rows : list Scored.row).

Definition frame_rows (f : item_frame) : list Embedding.row :=
  match f with
  | Plain rows => rows
  | WithSim rows => Scored.base <$> rows
  end.

(** Selecting the [sim_value] column of a frame that lacks it is a [KeyError]. *)
Definition scored_rows (f : item_frame) : result (list Scored.row) :=
  match f with
  | Plain _ => raise (KeyError "sim_value")
  | WithSim rows => mret rows
  end.

(** ** The notebook's variables *)

Record Env : Type := mkEnv {
  df_movie : list Movie.row;
  df_movie_embedding : item_frame;
  df_rating : list Rating.row;
  df_user_embedding : list Embedding.row;
  user_embedding : option vector;
  watched_ids : option (gset Z);
  df_target_movieIds : option (list Target.row);
}.

Definition set_df_movie_embedding (f : item_frame) (env : Env) : Env :=
  mkEnv (df_movie env) f (df_rating env) (df_user_embedding env)
        (user_embedding env) (watched_ids env) (df_target_movieIds env).

Definition set_user_embedding (v : vector) (env : Env) : Env :=
  mkEnv (df_movie env) (df_movie_embedding env) (df_rating env) (df_user_embedding env)
        (Some v) (watched_ids env) (df_target_movieIds env).

Definition set_watched_ids (w : gset Z) (env : Env) : Env :=
  mkEnv (df_movie env) (df_movie_embedding env) (df_rating env) (df_user_embedding env)
        (user_embedding env) (Some w) (df_target_movieIds env).

Definition set_df_target_movieIds (t : list Target.row) (env : Env) : Env :=
  mkEnv (df_movie env) (df_movie_embedding env) (df_rating env) (df_user_embedding env)
        (user_embedding env) (watched_ids env) (Some t).

(** ** Ordering binary64 values the way [sort_values] does

    [sort_values(by=..., ascending=False)] orders the values that are
    numbers from the largest to the smallest and puts the rows whose value
    is NaN after all of them ([na_position='last']). As one comparison:
    [a] may stand before [b] when [b] is NaN or [b <= a]. *)

Definition nan_last_ge (a b : float) : bool :=
  is_nan b || (b <=? a)%float.

Definition sim_ge : relation float := λ a b, nan_last_ge a b = true.

Definition sim_desc : relation Scored.row :=
  λ r1 r2, sim_ge (Scored.sim_value r1) (Scored.sim_value r2).

#[global] Instance sim_desc_dec (r1 r2 : Scored.row) : Decision (sim_desc r1 r2) :=
  bool_eq_dec _ _.

(** ** The dataframe operations of cells 29 to 41 *)

(** [df[df["id"] == k]]: the rows whose id is [k], in the frame's order. *)
Definition rows_with_id (k : Z) (df : list Embedding.row) : list Embedding.row :=
  filter (λ r, Embedding.id r = k) df.

(** [.iloc[0, 1]]: column 1 ([features]) of row 0; an [IndexError] on a
    frame without rows. *)
Definition iloc_0_1 (df : list Embedding.row) : result vector :=
  match df with
  | [] => raise IndexError
  | r :: _ => mret (Embedding.features r)
  end.

(** [set(df[df["userId"] == k]["movieId"].unique())] *)
Definition movie_ids_of_user (k : Z) (df : list Rating.row) : gset Z :=
  list_to_set (Rating.movieId <$> filter (λ r, Rating.userId r = k) df).

(** [df[~df["id"].isin(ids)]] *)
Definition not_isin (ids : gset Z) (df : list Scored.row) : list Scored.row :=
  filter (λ r, Scored.id r ∉ ids) df.

(** [.sort_values(by="sim_value", ascending=False)]. pandas' default sort
    does not promise an order among rows of equal value; the model keeps
    them in the frame's order. *)
Definition sort_values_desc (df : list Scored.row) : list Scored.row :=
  merge_sort sim_desc df.

(** [.head(n)] *)
Definition head {A} (n : nat) (df : list A) : list A := take n df.

(** [pd.merge(left, right, left_on="id", right_on="movieId")]: the
    default inner join. Every pair of a left row and a right row with
    equal keys gives one row, and the order of the left keys is kept, as
    documented. (Before pandas 2.2 the rows of equal left keys came out
    next to each other; the two orders agree when the left ids are
    distinct.) *)
Definition matches (right : list Movie.row) (l : Target.row) : list Movie.row :=
  filter (λ m, Movie.movieId m = Target.id l) right.

Definition merge (left : list Target.row) (right : list Movie.row) : list Merged.row :=
  l ← left; m ← matches right l; [Merged.join l m].

(** ** The cells *)

(** Cell 23 *)
Definition target_user_id : Z := 1.

(** The four files read by cell 25, the two embedding files with their
    [features] already parsed by cell 26. *)
Record Inputs : Type := mkInputs {
  movies_csv : list Movie.row;
  item_embedding_csv : list Embedding.row;
  ratings_csv : list Rating.row;
  user_embedding_csv : list Embedding.row;
}.

(** Cells 25 and 26 *)
Definition cell_25 (files : Inputs) : Env :=
  mkEnv (movies_csv files) (Plain (item_embedding_csv files))
        (ratings_csv files) (user_embedding_csv files) None None None.

(** Cell 29 *)
Definition cell_29 (env : Env) : result Env :=
  v ← iloc_0_1 (rows_with_id target_user_id (df_user_embedding env));
  mret (set_user_embedding v env).

(** Cell 32. [score u r] is the row [r] with the value of the lambda at
    its features. The lambda reads the global [user_embedding] each time
    it is called, so an unassigned variable is only noticed when the
    table has a row. *)
Definition score (u : vector) (r : Embedding.row) : result Scored.row :=
  s ← sim_value_of u (Embedding.features r);
  mret (Scored.mk (Embedding.id r) (Embedding.features r) s).

Definition score_row (env : Env) (r : Embedding.row) : result Scored.row :=
  u ← lookup_var "user_embedding" (user_embedding env);
  score u r.

Definition cell_32 (env : Env) : result Env :=
  rows ← series_map (score_row env) (frame_rows (df_movie_embedding env));
  mret (set_df_movie_embedding (WithSim rows) env).

(** Cell 36 *)
Definition cell_36 (env : Env) : result Env :=
  mret (set_watched_ids (movie_ids_of_user target_user_id (df_rating env)) env).

(** Cell 39: the expression assigned to [df_target_movieIds], then the cell. *)
Definition target_movieIds (w : gset Z) (rows : list Scored.row) : list Target.row :=
  Target.of_scored <$> head 10 (sort_values_desc (not_isin w rows)).

Definition cell_39 (env : Env) : result Env :=
  w ← lookup_var "watched_ids" (watched_ids env);
  rows ← scored_rows (df_movie_embedding env);
  mret (set_df_target_movieIds (target_movieIds w rows) env).

(** Cell 41: the frame it displays. *)
Definition shown_table (t : list Target.row) (movies : list Movie.row) : list Shown.row :=
  Shown.of_merged <$> merge t movies.

Definition cell_41 (env : Env) : result (list Shown.row) :=
  t ← lookup_var "df_target_movieIds" (df_target_movieIds env);
  mret (shown_table t (df_movie env)).

(** The notebook from cell 25 to cell 41, run top to bottom: the final
    variables and the displayed table, or the exception that stopped it. *)
Definition notebook (files : Inputs) : result (Env * list Shown.row) :=
  env ← cell_29 (cell_25 files);
  env ← cell_32 env;
  env ← cell_36 env;
  env ← cell_39 env;
  shown ← cell_41 env;
  mret (env, shown).

(** ** The ALS estimator of cell 12 and Spark's cold-start handling

    The notebook configures the estimator and fits it; the solver and the
    prediction step are Spark's. What is written here is the estimator's
    parameters with their defaults, the shape of a fitted model, and
    [ALSModel.transform] after Spark's documentation: join the data with
    the two factor tables, predict by the inner product of the two
    vectors, NaN where a vector is missing, and, under the "drop"
    strategy, remove the rows whose prediction is NaN. *)

Module Spark.
Local Set Warnings "-inexact-float".

(** Spark's [FloatType]: binary32. *)
Definition float32 : Type := spec_float.
Definition add32 : float32 → float32 → float32 := SFadd 24 128.
Definition mul32 : float32 → float32 → float32 := SFmul 24 128.
Definition zero32 : float32 := S754_zero false.
Definition is_nan32 (x : float32) : bool :=
  match x with
  | S754_nan => true
  | _ => false
  end.

Inductive ColdStartStrategy : Type := nan | drop.

Record ALS : Type := mkALS {
  rank : nat;
  maxIter : nat;
  regParam : float;
  implicitPrefs : bool;
  alpha : float;
  nonnegative : bool;
  userCol : string;
  itemCol : string;
  ratingCol : string;
  predictionCol : string;
  coldStartStrategy : ColdStartStrategy;
}.

(** [ALS()] with no argument. *)
Definition defaults : ALS := {|
  rank := 10;
  maxIter := 10;
  regParam := 0.1;
  implicitPrefs := false;
  alpha := 1.0;
  nonnegative := false;
  userCol := "user";
  itemCol := "item";
  ratingCol := "rating";
  predictionCol := "prediction";
  coldStartStrategy := nan;
|}.

(** Cell 12: the keyword arguments given, the defaults elsewhere. *)
Definition als : ALS := {|
  rank := rank defaults;
  maxIter := 5;
  regParam := 0.01;
  implicitPrefs := implicitPrefs defaults;
  alpha := alpha defaults;
  nonnegative := nonnegative defaults;
  userCol := "userId";
  itemCol := "movieId";
  ratingCol := "rating";
  predictionCol := predictionCol defaults;
  coldStartStrategy := drop;
|}.

(** A row of [userFactors] or [itemFactors]. *)
Record factor : Type := mkFactor {
  id : Z;
  features : list float32;
}.

(** What [fit] returns: the estimator's parameters and the two factor
    tables. *)
Record ALSModel : Type := mkALSModel {
  params : ALS;
  userFactors : list factor;
  itemFactors : list factor;
}.

(** A row of the frame [transform] returns: the input row and its
    prediction. *)
Record predicted : Type := mkPredicted {
  input : Rating.row;
  prediction : float32;
}.

(** The left join with a factor table: one copy of the row per factor
    row with its key, or a single copy without features. *)
Definition left_join (k : Z) (factors : list factor) : list (option (list float32)) :=
  match filter (λ f, id f = k) factors with
  | [] => [None]
  | fs => Some ∘ features <$> fs
  end.

(** The prediction: the sum of the first [rank] products, accumulated
    in binary32 from 0; NaN when either vector is missing. Reading past
    the end of a vector is an error. *)
Fixpoint dot32 (n : nat) (a b : list float32) (acc : float32) : result float32 :=
  match n with
  | O => mret acc
  | S n' =>
      match a, b with
      | x :: a', y :: b' => dot32 n' a' b' (add32 acc (mul32 x y))
      | _, _ => raise IndexError
      end
  end.

Definition predict (n : nat) (a b : option (list float32)) : result float32 :=
  match a, b with
  | Some fa, Some fb => dot32 n fa fb zero32
  | _, _ => mret S754_nan
  end.

Definition predictions (m : ALSModel) (dataset : list Rating.row) : result (list predicted) :=
  series_map
    (λ '(r, a, b), p ← predict (rank (params m)) a b; mret (mkPredicted r p))
    (r ← dataset;
     a ← left_join (Rating.userId r) (userFactors m);
     b ← left_join (Rating.movieId r) (itemFactors m);
     [(r, a, b)]).

(** [model.transform(dataset)] *)
Definition transform (m : ALSModel) (dataset : list Rating.row) : result (list predicted) :=
  ps ← predictions m dataset;
  match coldStartStrategy (params m) with
  | drop => mret (filter (λ p, is_nan32 (prediction p) = false) ps)
  | nan => mret ps
  end.
End Spark.

(** ** Vocabulary of the statements *)

(** A column of similarity scores is in descending order when every row's
    score is at least the score of the row after it. *)
Definition descending (sims : list float) : Prop :=
  ∀ (i : nat) (a b : float),
    sims !! i = Some a → sims !! S i = Some b → (b <=? a)%float = true.

(** The same, except that a row may also be followed by a row whose score
    is NaN. *)
Definition descending_nan_last (sims : list float) : Prop :=
  ∀ (i : nat) (a b : float),
    sims !! i = Some a → sims !! S i = Some b →
    is_nan b = true ∨ (b <=? a)%float = true.

(** The rows of the item embedding file whose id is not in [w]. *)
Definition unwatched (w : gset Z) (df : list Embedding.row) : list Embedding.row :=
  filter (λ r, Embedding.id r ∉ w) df.

(** The ids for which movies.csv has a row. *)
Definition has_metadata (movies : list Movie.row) (t : Target.row) : Prop :=
  Target.id t ∈ Movie.movieId <$> movies.

#[global] Instance has_metadata_dec (movies : list Movie.row) (t : Target.row) :
  Decision (has_metadata movies t) := list_elem_of_dec _ _.

(** The cosine of the angle between two real vectors, as the glossary
    has it: their inner product divided by the product of their
    Euclidean norms. *)
Fixpoint inner (u v : list R) : R :=
  match u, v with
  | a :: u', b :: v' => (a * b + inner u' v')%R
  | _, _ => 0%R
  end.

Definition norm (u : list R) : R := R_sqrt.sqrt (inner u u).

Definition angle (u v : list R) : R := acos (inner u v / (norm u * norm v)).

Definition nonzero (u : list R) : Prop := Exists (λ a, a ≠ 0%R) u.

(** ** Example tables *)

Module Examples.
Open Scope string_scope.
Open Scope Z_scope.

(** Five items in two dimensions; item 30 has the zero vector, the
    target user has rated item 10, and movies.csv knows items 10, 20
    and 40 only. *)
Definition small : Inputs := {|
  movies_csv :=
    [Movie.mk 10 "Heat (1995)" "Action|Crime|Thriller";
     Movie.mk 20 "Money Train (1995)" "Action|Comedy|Crime|Drama|Thriller";
     Movie.mk 40 "Cry, the Beloved Country (1995)" "Drama"];
  item_embedding_csv :=
    [Embedding.mk 10 [1; 0]%float;
     Embedding.mk 20 [1; 1]%float;
     Embedding.mk 30 [0; 0]%float;
     Embedding.mk 40 [1; 3]%float;
     Embedding.mk 50 [-1; 0.5]%float];
  ratings_csv :=
    [Rating.mk 1 10 4 964982703; Rating.mk 2 20 3 964981247];
  user_embedding_csv :=
    [Embedding.mk 2 [0; 1]%float; Embedding.mk 1 [1; 0]%float];
|}.

(** The same tables without a row for user 1 in the user embedding file. *)
Definition no_target_user : Inputs := {|
  movies_csv := movies_csv small;
  item_embedding_csv := item_embedding_csv small;
  ratings_csv := ratings_csv small;
  user_embedding_csv := [Embedding.mk 2 [0; 1]%float];
|}.

Definition item (i : Z) (x y : float) : Embedding.row := Embedding.mk i [x; y].

(** The shape of the run recorded in the notebook: the ten best unseen
    items are 2779, 2915, 2013, 3471, 311, 1470, 3505, 3499, 3250 and
    1442, in this order, and movies.csv has no row for 1470. Item 1 is
    one the target user has rated. *)

Definition recorded : Inputs := {|
  movies_csv :=
    [Movie.mk 1 "Toy Story (1995)" "Adventure|Animation|Children|Comedy|Fantasy";
     Movie.mk 311 "Relative Fear (1994)" "Horror|Thriller";
     Movie.mk 1442 "Prefontaine (1997)" "Drama";
     Movie.mk 2013 "Poseidon Adventure, The (1972)" "Action|Adventure|Drama";
     Movie.mk 2779 "Heaven Can Wait (1978)" "Comedy";
     Movie.mk 2915 "Risky Business (1983)" "Comedy";
     Movie.mk 3250 "Alive (1993)" "Drama";
     Movie.mk 3471 "Close Encounters of the Third Kind (1977)" "Adventure|Drama|Sci-Fi";
     Movie.mk 3499 "Misery (1990)" "Drama|Horror|Thriller";
     Movie.mk 3505 "No Way Out (1987)" "Drama|Mystery|Thriller"];
  item_embedding_csv :=
    [item 1 1 0; item 311 16 5; item 1442 16 10; item 1470 16 6;
     item 2013 16 3; item 2779 16 1; item 2915 16 2; item 3250 16 9;
     item 3471 16 4; item 3499 16 8; item 3505 16 7; item 3600 0 1]%float;
  ratings_csv :=
    [Rating.mk 1 1 4 964982703; Rating.mk 1 3 4 964981247; Rating.mk 2 311 5 964982224];
  user_embedding_csv :=
    [Embedding.mk 10 [0.5; 0.25]%float; Embedding.mk 1 [1; 0]%float];
|}.

(** [recorded] with a second metadata row for movie 311 and a row for 1470. *)
Definition duplicated : Inputs := {|
  movies_csv :=
    Movie.mk 311 "Relative Fear (1994)" "Horror"
    :: Movie.mk 1470 "Rough Magic (1995)" "Drama|Romance"
    :: movies_csv recorded;
  item_embedding_csv := item_embedding_csv recorded;
  ratings_csv := ratings_csv recorded;
  user_embedding_csv := user_embedding_csv recorded;
|}.

Definition of_Z32 (z : Z) : Spark.float32 := binary_normalize 24 128 z 0 false.

Definition factor (i : Z) (first : Z) : Spark.factor :=
  Spark.mkFactor i (of_Z32 <$> seqZ first 10).

(** A model fitted with the notebook's estimator on users 1 and 2 and
    items 10 and 20, the same factors under the default strategy, and
    three rows to predict: a known pair, an unseen user, an unseen item. *)
Definition fitted : Spark.ALSModel := {|
  Spark.params := Spark.als;
  Spark.userFactors := [factor 1 (-2); factor 2 0];
  Spark.itemFactors := [factor 10 1; factor 20 (-5)];
|}.

Definition fitted_nan : Spark.ALSModel := {|
  Spark.params := Spark.defaults;
  Spark.userFactors := Spark.userFactors fitted;
  Spark.itemFactors := Spark.itemFactors fitted;
|}.

Definition to_predict : list Rating.row :=
  [Rating.mk 1 10 5 978300760; Rating.mk 3 10 4 978302109; Rating.mk 1 30 3 978301968].
End Examples.

(** ** More vocabulary and tables *)

(** A vector all of whose components are zero (of either sign). *)
Definition zero_vector (v : vector) : Prop := Forall (λ a, is_zero a = true) v.

(** A real vector multiplied by a scalar. *)
Definition scale (k : R) (u : list R) : list R := Rmult k <$> u.

(** The input files with another ratings.csv. *)
Definition with_ratings (ratings : list Rating.row) (files : Inputs) : Inputs :=
  mkInputs (movies_csv files) (item_embedding_csv files) ratings (user_embedding_csv files).

(** The rows of ratings.csv that cell 36 keeps. *)
Definition ratings_of_user (k : Z) (df : list Rating.row) : list Rating.row :=
  filter (λ r, Rating.userId r = k) df.

(** The number cell 36 displays: [len(watched_ids)]. *)
Definition len_watched_ids (env : Env) : result nat :=
  w ← lookup_var "watched_ids" (watched_ids env); mret (size w).

Module MoreExamples.
Open Scope string_scope.
Open Scope Z_scope.

(** [Examples.small] with an item whose vector has three components. *)
Definition ragged : Inputs := {|
  movies_csv := movies_csv Examples.small;
  item_embedding_csv :=
    item_embedding_csv Examples.small ++ [Embedding.mk 60 [1; 2; 3]%float];
  ratings_csv := ratings_csv Examples.small;
  user_embedding_csv := user_embedding_csv Examples.small;
|}.

(** Other ratings with the same movies for user 1: another rating value,
    the row twice, and more rows of other users. *)
Definition other_ratings : list Rating.row :=
  [Rating.mk 7 40 5 964980000; Rating.mk 1 10 1 964982703;
   Rating.mk 1 10 1 964982999; Rating.mk 2 50 2 964981247].

(** The variables before any cell after cell 25 has run, with an empty
    item embedding file, and with the one of [Examples.small]. *)
Definition fresh_empty : Env :=
  cell_25 (mkInputs [] [] [] (user_embedding_csv Examples.small)).

Definition fresh : Env := cell_25 Examples.small.
End MoreExamples.

(** A binary64 value that is a zero (of either sign) or NaN, on its
    IEEE 754 description. *)
Definition zero_or_nan (a : float) : Prop :=
  match Prim2SF a with
  | S754_zero _ | S754_nan => True
  | _ => False
  end.

(** * Properties *)

(** ** The order on binary64 values

    The comparisons of [PrimFloat] are specified by those of
    [SpecFloat]; the facts below are proved there and carried over. *)

Section float_order.
Local Ltac split_compare :=
  repeat match goal with
  | |- context [Pos.compare_cont Eq ?a ?b] =>
      change (Pos.compare_cont Eq a b) with (Pos.compare a b)
  | |- context [Z.compare ?a ?b] => destruct (Z.compare_spec a b); subst
  | |- context [Pos.compare ?a ?b] => destruct (Pos.compare_spec a b); subst
  end; simpl.

Lemma SFleb_total (x y : spec_float) :
  x ≠ S754_nan → y ≠ S754_nan → SFleb x y = true ∨ SFleb y x = true.
Proof.
  unfold SFleb, SFcompare.
  destruct x as [[]|[]| |[] m1 e1], y as [[]|[]| |[] m2 e2]; intros Hx Hy;
    try congruence; try (left; reflexivity); try (right; reflexivity).
  all: split_compare; try (left; reflexivity); try (right; reflexivity); lia.
Qed.

Lemma SFleb_trans (x y z : spec_float) :
  SFleb x y = true → SFleb y z = true → SFleb x z = true.
Proof.
  unfold SFleb, SFcompare.
  destruct x as [[]|[]| |[] m1 e1], y as [[]|[]| |[] m2 e2],
           z as [[]|[]| |[] m3 e3];
    try (intros; (reflexivity || discriminate)).
  all: intros H1 H2; revert H1 H2; split_compare;
    try reflexivity; try discriminate; lia.
Qed.

Lemma SFleb_not_nan (x y : spec_float) :
  SFleb x y = true → x ≠ S754_nan ∧ y ≠ S754_nan.
Proof.
  unfold SFleb, SFcompare.
  destruct x as [[]|[]| |[] m1 e1], y as [[]|[]| |[] m2 e2];
    intros Hle; split; congruence.
Qed.

Lemma is_nan_spec (x : float) : is_nan x = true ↔ Prim2SF x = S754_nan.
Proof.
  unfold is_nan. rewrite FloatAxioms.eqb_spec. unfold SFeqb.
  destruct (Prim2SF x) as [[]|[]| |[] m e] eqn:E; simpl;
    split; try congruence; try discriminate.
  all: rewrite Z.compare_refl;
    change (Pos.compare_cont Eq m m) with (Pos.compare m m);
    rewrite Pos.compare_refl; simpl; discriminate.
Qed.

Lemma is_nan_false_spec (x : float) : is_nan x = false ↔ Prim2SF x ≠ S754_nan.
Proof.
  rewrite <- is_nan_spec. destruct (is_nan x); split; congruence.
Qed.

Lemma leb_total (a b : float) :
  is_nan a = false → is_nan b = false →
  (a <=? b)%float = true ∨ (b <=? a)%float = true.
Proof.
  rewrite !is_nan_false_spec, !leb_spec. apply SFleb_total.
Qed.

Lemma leb_trans (a b c : float) :
  (a <=? b)%float = true → (b <=? c)%float = true → (a <=? c)%float = true.
Proof. rewrite !leb_spec. apply SFleb_trans. Qed.

Lemma leb_not_nan (a b : float) :
  (a <=? b)%float = true → is_nan a = false ∧ is_nan b = false.
Proof. rewrite !is_nan_false_spec, leb_spec. apply SFleb_not_nan. Qed.

Lemma nan_last_ge_total (a b : float) :
  nan_last_ge a b = true ∨ nan_last_ge b a = true.
Proof.
  unfold nan_last_ge.
  destruct (is_nan a) eqn:Ha; [right; reflexivity|].
  destruct (is_nan b) eqn:Hb; [left; reflexivity|].
  simpl. destruct (leb_total a b Ha Hb); auto.
Qed.

Lemma nan_last_ge_trans (a b c : float) :
  nan_last_ge a b = true → nan_last_ge b c = true → nan_last_ge a c = true.
Proof.
  unfold nan_last_ge. intros Hab Hbc.
  destruct (is_nan c) eqn:Hc; [reflexivity|]. simpl in *.
  destruct (leb_not_nan _ _ Hbc) as [_ Hb]. rewrite Hb in Hab. simpl in Hab.
  eapply leb_trans; eassumption.
Qed.
End float_order.

#[global] Instance sim_desc_total : Total sim_desc.
Proof. intros r1 r2. apply nan_last_ge_total. Qed.

#[global] Instance sim_desc_trans : Transitive sim_desc.
Proof. intros r1 r2 r3. apply nan_last_ge_trans. Qed.

(** ** Running the cells *)

Lemma bind_inr {A B} (m : result A) (f : A → result B) (y : B) :
  m ≫= f = inr y ↔ ∃ x, m = inr x ∧ f x = inr y.
Proof.
  destruct m as [e|x]; simpl; split.
  - discriminate.
  - intros (x & Hx & _). discriminate.
  - eauto.
  - intros (x' & Hx & Hf). by simplify_eq.
Qed.

Lemma series_map_inr {A B} (f : A → result B) (l : list A) (l' : list B) :
  series_map f l = inr l' ↔ Forall2 (λ x y, f x = inr y) l l'.
Proof.
  revert l'. induction l as [|x l IH]; intros l'; simpl.
  - split.
    + intros [= <-]. constructor.
    + intros ->%Forall2_nil_inv_l. reflexivity.
  - rewrite bind_inr. split.
    + intros (y & Hy & (ys & Hys & [= <-])%bind_inr).
      constructor; [done|]. by apply IH.
    + intros (y & ys & Hy & Hys & ->)%Forall2_cons_inv_l.
      exists y. split; [done|]. apply bind_inr. exists ys. split; [|done].
      by apply IH.
Qed.

Lemma score_inr (u : vector) (r : Embedding.row) (r' : Scored.row) :
  score u r = inr r' ↔
  Scored.base r' = r ∧ sim_value_of u (Embedding.features r) = inr (Scored.sim_value r').
Proof.
  unfold score. rewrite bind_inr. destruct r as [i v], r' as [i' v' s']. simpl.
  unfold Scored.base; simpl. split.
  - intros (s & Hs & [= -> -> ->]). done.
  - intros [[= -> ->] Hs]. eauto.
Qed.

Lemma series_map_score_base (u : vector) (df : list Embedding.row) (rows : list Scored.row) :
  series_map (score u) df = inr rows → Scored.base <$> rows = df.
Proof.
  rewrite series_map_inr. induction 1 as [|r r' df rows Hr _ IH]; [done|].
  apply score_inr in Hr as [Hr _]. rewrite fmap_cons. by rewrite Hr, IH.
Qed.

Lemma score_row_inr (env : Env) (r : Embedding.row) (r' : Scored.row) :
  score_row env r = inr r' ↔ ∃ u, user_embedding env = Some u ∧ score u r = inr r'.
Proof.
  unfold score_row. destruct (user_embedding env) as [u|]; simpl; split.
  - eauto.
  - by intros (u' & [= <-] & Hr).
  - discriminate.
  - by intros (u' & [=] & _).
Qed.

Lemma series_map_score_row_base (env : Env) (df : list Embedding.row) (rows : list Scored.row) :
  series_map (score_row env) df = inr rows → Scored.base <$> rows = df.
Proof.
  rewrite series_map_inr. induction 1 as [|r r' df rows Hr _ IH]; [done|].
  apply score_row_inr in Hr as (u & _ & [Hr _]%score_inr).
  rewrite fmap_cons. by rewrite Hr, IH.
Qed.

(** A run that reaches the end of cell 41 found the target user's
    vector, scored every item, and left these values in the variables. *)
Lemma notebook_inr (files : Inputs) (env : Env) (shown : list Shown.row) :
  notebook files = inr (env, shown) ↔
  ∃ u rows,
    iloc_0_1 (rows_with_id target_user_id (user_embedding_csv files)) = inr u ∧
    series_map (score u) (item_embedding_csv files) = inr rows ∧
    let w := movie_ids_of_user target_user_id (ratings_csv files) in
    env = mkEnv (movies_csv files) (WithSim rows) (ratings_csv files)
            (user_embedding_csv files) (Some u) (Some w)
            (Some (target_movieIds w rows)) ∧
    shown = shown_table (target_movieIds w rows) (movies_csv files).
Proof.
  unfold notebook, cell_29, cell_32, cell_36, cell_39, cell_41. split.
  - intros (env1 & (u & Hu & [= <-])%bind_inr & H)%bind_inr.
    simpl in H.
    apply bind_inr in H as (env2 & (rows & Hrows & [= <-])%bind_inr & H).
    simpl in H. injection H as <- <-.
    exists u, rows. split_and!; [done|exact Hrows|done..].
  - intros (u & rows & Hu & Hrows & -> & ->). simpl in *.
    rewrite Hu. simpl.
    change (series_map (score_row _)) with (series_map (score u)).
    rewrite Hrows. reflexivity.
Qed.

(** ** The dataframe operations *)

Lemma sim_ge_refl (a : float) : sim_ge a a.
Proof. by destruct (nan_last_ge_total a a). Qed.

Lemma elem_of_movie_ids_of_user (k i : Z) (df : list Rating.row) :
  i ∈ movie_ids_of_user k df ↔
  ∃ r, r ∈ df ∧ Rating.userId r = k ∧ Rating.movieId r = i.
Proof.
  unfold movie_ids_of_user.
  rewrite elem_of_list_to_set, list_elem_of_fmap.
  split.
  - intros (r & -> & [Hu Hr]%list_elem_of_filter). eauto.
  - intros (r & Hr & Hu & <-). exists r. split; [done|].
    by apply list_elem_of_filter.
Qed.

Lemma sort_values_desc_perm (df : list Scored.row) : sort_values_desc df ≡ₚ df.
Proof. apply merge_sort_Permutation. Qed.

Lemma sort_values_desc_sorted (df : list Scored.row) :
  StronglySorted sim_desc (sort_values_desc df).
Proof. apply (StronglySorted_merge_sort sim_desc). Qed.

Lemma StronglySorted_take {A} (R : relation A) (n : nat) (l : list A) :
  StronglySorted R l → StronglySorted R (take n l).
Proof.
  intros Hl. rewrite <- (take_drop n l) in Hl.
  by apply StronglySorted_app_1_l in Hl.
Qed.

Lemma elem_of_target_movieIds (w : gset Z) (rows : list Scored.row) (t : Target.row) :
  t ∈ target_movieIds w rows →
  ∃ r, r ∈ rows ∧ (Scored.id r ∉ w) ∧ t = Target.of_scored r.
Proof.
  unfold target_movieIds, head, not_isin.
  intros (r & -> & Hr)%list_elem_of_fmap.
  apply subseteq_take in Hr. rewrite sort_values_desc_perm in Hr.
  apply list_elem_of_filter in Hr as [Hw Hr]. eauto.
Qed.

Lemma length_target_movieIds (w : gset Z) (rows : list Scored.row) :
  length (target_movieIds w rows) = min 10 (length (not_isin w rows)).
Proof.
  unfold target_movieIds, head.
  by rewrite length_fmap, length_take, sort_values_desc_perm.
Qed.

Lemma target_movieIds_sorted (w : gset Z) (rows : list Scored.row) :
  StronglySorted sim_ge (Target.sim_value <$> target_movieIds w rows).
Proof.
  unfold target_movieIds, head. rewrite <- list_fmap_compose.
  eapply StronglySorted_fmap, StronglySorted_take, sort_values_desc_sorted.
  intros r1 r2 Hr. exact Hr.
Qed.

Lemma merge_cons (l : Target.row) (left : list Target.row) (movies : list Movie.row) :
  merge (l :: left) movies = (Merged.join l <$> matches movies l) ++ merge left movies.
Proof.
  unfold merge at 1. by rewrite bind_cons.
Qed.

Lemma elem_of_merge (left : list Target.row) (movies : list Movie.row) (x : Merged.row) :
  x ∈ merge left movies ↔
  ∃ l m, l ∈ left ∧ m ∈ movies ∧ Movie.movieId m = Target.id l ∧ x = Merged.join l m.
Proof.
  unfold merge. rewrite list_elem_of_bind. split.
  - intros (l & (m & ->%list_elem_of_singleton & [Hk Hm]%list_elem_of_filter)%list_elem_of_bind & Hl).
    eauto 6.
  - intros (l & m & Hl & Hm & Hk & ->). exists l. split; [|done].
    apply list_elem_of_bind. exists m. split; [apply list_elem_of_singleton; done|].
    by apply list_elem_of_filter.
Qed.

Lemma elem_of_shown_table (top : list Target.row) (movies : list Movie.row) (s : Shown.row) :
  s ∈ shown_table top movies ↔
  ∃ l m, l ∈ top ∧ m ∈ movies ∧ Movie.movieId m = Target.id l ∧
         s = Shown.mk (Movie.movieId m) (Movie.title m) (Movie.genres m) (Target.sim_value l).
Proof.
  unfold shown_table. rewrite list_elem_of_fmap.
  setoid_rewrite elem_of_merge. split.
  - intros (x & -> & l & m & Hl & Hm & Hk & ->). by exists l, m.
  - intros (l & m & Hl & Hm & Hk & ->). exists (Merged.join l m). split; [done|].
    by exists l, m.
Qed.

Lemma merge_sim_values (left : list Target.row) (movies : list Movie.row) :
  Merged.sim_value <$> merge left movies =
  left ≫= λ l, replicate (length (matches movies l)) (Target.sim_value l).
Proof.
  induction left as [|l left IH]; [done|].
  rewrite merge_cons, fmap_app, bind_cons, IH. f_equal.
  induction (matches movies l) as [|m ms IHm]; [done|].
  rewrite !fmap_cons, IHm. reflexivity.
Qed.

Lemma shown_sim_values (top : list Target.row) (movies : list Movie.row) :
  Shown.sim_value <$> shown_table top movies =
  top ≫= λ l, replicate (length (matches movies l)) (Target.sim_value l).
Proof.
  unfold shown_table. rewrite <- list_fmap_compose, <- merge_sim_values.
  reflexivity.
Qed.

Lemma shown_table_sorted (top : list Target.row) (movies : list Movie.row) :
  StronglySorted sim_ge (Target.sim_value <$> top) →
  StronglySorted sim_ge (Shown.sim_value <$> shown_table top movies).
Proof.
  rewrite shown_sim_values.
  induction top as [|l top IH]; [constructor|].
  rewrite fmap_cons, bind_cons. intros [Hl Htop]%StronglySorted_cons.
  apply StronglySorted_app_2.
  - intros a b ->%elem_of_replicate_inv
      (l' & ->%elem_of_replicate_inv & Hl')%list_elem_of_bind.
    rewrite Forall_forall in Hl. apply Hl. by apply list_elem_of_fmap_2.
  - induction (length (matches movies l)) as [|n IHn]; [constructor|].
    simpl. constructor; [done|].
    apply Forall_forall. intros b ->%elem_of_replicate_inv. apply sim_ge_refl.
  - by apply IH.
Qed.

(** ** The recommendation step *)

Lemma StronglySorted_sim_ge_lookup (sims : list float) :
  StronglySorted sim_ge sims → descending_nan_last sims.
Proof.
  intros Hs i a b Ha Hb.
  apply list_elem_of_split_length in Ha as (l1 & l2 & -> & ->).
  rewrite lookup_app_r in Hb by lia.
  replace (S (length l1) - length l1) with 1 in Hb by lia.
  apply StronglySorted_app_1_r, StronglySorted_cons in Hs as [Hs _].
  destruct l2 as [|b' l2]; simplify_eq/=.
  apply Forall_cons in Hs as [Hab _]. unfold sim_ge, nan_last_ge in Hab.
  apply orb_true_iff in Hab. exact Hab.
Qed.

Lemma descending_nan_last_no_nan (sims : list float) :
  descending_nan_last sims → Forall (λ s, is_nan s = false) sims → descending sims.
Proof.
  intros Hs Hn i a b Ha Hb. destruct (Hs i a b Ha Hb) as [Hnan|Hle]; [|done].
  rewrite Forall_forall in Hn. apply list_elem_of_lookup_2 in Hb.
  rewrite (Hn b Hb) in Hnan. discriminate.
Qed.

(** C1. After a complete run, no id in [df_target_movieIds] belongs to
    [watched_ids], the set of the movieIds that ratings.csv holds for user
    1: no row of ratings.csv with userId 1 carries a recommended id. The
    same holds for the ids of the displayed table. *)
Theorem recommended_items_are_unwatched
    (files : Inputs) (env : Env) (shown : list Shown.row) :
  notebook files = inr (env, shown) →
  ∃ (top : list Target.row) (w : gset Z),
    df_target_movieIds env = Some top ∧
    watched_ids env = Some w ∧
    (∀ i, i ∈ w ↔ ∃ r, r ∈ ratings_csv files ∧
                      Rating.userId r = target_user_id ∧ Rating.movieId r = i) ∧
    (∀ t, t ∈ top → Target.id t ∉ w) ∧
    (∀ t r, t ∈ top → r ∈ ratings_csv files → Rating.userId r = target_user_id →
            Rating.movieId r ≠ Target.id t) ∧
    (∀ s, s ∈ shown → Shown.movieId s ∉ w).
Proof.
  intros (u & rows & _ & _ & -> & ->)%notebook_inr. simpl.
  set (w := movie_ids_of_user target_user_id (ratings_csv files)).
  exists (target_movieIds w rows), w.
  assert (Htop : ∀ t, t ∈ target_movieIds w rows → Target.id t ∉ w).
  { intros t (r & _ & Hw & ->)%elem_of_target_movieIds. exact Hw. }
  split_and!; try done.
  - intros i. apply elem_of_movie_ids_of_user.
  - intros t r Ht Hr Hu Heq. apply (Htop t Ht).
    apply elem_of_movie_ids_of_user. eauto.
  - intros s (l & m & Hl & _ & Hk & ->)%elem_of_shown_table. simpl.
    rewrite Hk. by apply Htop.
Qed.

Lemma recommended_items_are_unwatched_witness :
  ∃ env shown, notebook Examples.small = inr (env, shown) ∧
    ∃ top w, df_target_movieIds env = Some top ∧ watched_ids env = Some w ∧
             Target.id <$> top = [20; 40; 50; 30]%Z ∧
             ∀ t, t ∈ top → Target.id t ∉ w.
Proof.
  destruct (notebook Examples.small) as [e|[env shown]] eqn:Hrun;
    [vm_compute in Hrun; discriminate|].
  exists env, shown. split; [reflexivity|].
  destruct (recommended_items_are_unwatched _ _ _ Hrun)
    as (top & w & Htop & Hw & _ & Hout & _).
  exists top, w. split_and!; try assumption.
  vm_compute in Hrun. injection Hrun as <- _. injection Htop as <-. reflexivity.
Defined.

(** C2, as stated, fails: item 30 has the zero vector, its cosine
    distance is 0/0, its [sim_value] is NaN, and [sort_values] puts it
    last, after a row whose score it is not less than or equal to. *)
Lemma descending_fails_with_nan :
  ∃ env shown top,
    notebook Examples.small = inr (env, shown) ∧
    df_target_movieIds env = Some top ∧
    ¬ descending (Target.sim_value <$> top).
Proof.
  eexists _, _, _. split; [vm_compute; reflexivity|].
  split; [reflexivity|].
  intros Hdesc. specialize (Hdesc 2 _ _ eq_refl eq_refl).
  vm_compute in Hdesc. discriminate.
Qed.

Lemma shown_sims_subseteq (top : list Target.row) (movies : list Movie.row) (s : float) :
  s ∈ Shown.sim_value <$> shown_table top movies → s ∈ Target.sim_value <$> top.
Proof.
  intros (x & -> & (l & m & Hl & _ & _ & ->)%elem_of_shown_table)%list_elem_of_fmap.
  simpl. by apply list_elem_of_fmap_2.
Qed.

(** C2, amended. After a complete run, in [df_target_movieIds] and in the
    displayed table alike, every row's [sim_value] is greater than or
    equal to that of the next row, or the next row's [sim_value] is NaN;
    if no row of [df_target_movieIds] has a NaN score, both tables are in
    descending order of [sim_value]. *)
Theorem recommendations_sorted_nan_last
    (files : Inputs) (env : Env) (shown : list Shown.row) :
  notebook files = inr (env, shown) →
  ∃ top : list Target.row,
    df_target_movieIds env = Some top ∧
    descending_nan_last (Target.sim_value <$> top) ∧
    descending_nan_last (Shown.sim_value <$> shown) ∧
    (Forall (λ t, is_nan (Target.sim_value t) = false) top →
     descending (Target.sim_value <$> top) ∧
     descending (Shown.sim_value <$> shown)).
Proof.
  intros (u & rows & _ & _ & -> & ->)%notebook_inr. simpl.
  set (w := movie_ids_of_user target_user_id (ratings_csv files)).
  exists (target_movieIds w rows).
  pose proof (target_movieIds_sorted w rows) as Htop.
  pose proof (shown_table_sorted _ (movies_csv files) Htop) as Hshown.
  apply StronglySorted_sim_ge_lookup in Htop, Hshown.
  split_and!; try done.
  intros Hnan.
  assert (Forall (λ s, is_nan s = false) (Target.sim_value <$> target_movieIds w rows))
    as Hn by (by apply Forall_fmap).
  split; apply descending_nan_last_no_nan; try done.
  rewrite Forall_forall in Hn |- *.
  intros s Hs%shown_sims_subseteq. by apply Hn.
Qed.

Lemma recommendations_sorted_nan_last_witness :
  ∃ env shown top,
    notebook Examples.recorded = inr (env, shown) ∧
    df_target_movieIds env = Some top ∧
    length top = 10 ∧ length shown = 9 ∧
    descending (Target.sim_value <$> top) ∧
    descending (Shown.sim_value <$> shown).
Proof.
  destruct (notebook Examples.recorded) as [e|[env shown]] eqn:Hrun;
    [vm_compute in Hrun; discriminate|].
  destruct (recommendations_sorted_nan_last _ _ _ Hrun) as (top & Htop & _ & _ & Hdesc).
  exists env, shown, top.
  vm_compute in Hrun. injection Hrun as <- <-. injection Htop as <-.
  split_and!; try reflexivity; apply Hdesc; repeat constructor.
Defined.

(** ** How many rows *)

Lemma length_not_isin (w : gset Z) (rows : list Scored.row) :
  length (not_isin w rows) = length (unwatched w (Scored.base <$> rows)).
Proof.
  unfold not_isin, unwatched. induction rows as [|r rows IH]; [done|].
  rewrite fmap_cons, !filter_cons. simpl.
  destruct (decide (Scored.id r ∉ w)); simpl; by rewrite IH.
Qed.

Lemma length_matches_NoDup (movies : list Movie.row) (l : Target.row) :
  NoDup (Movie.movieId <$> movies) →
  length (matches movies l) = if decide (has_metadata movies l) then 1 else 0.
Proof.
  unfold matches. induction movies as [|m movies IH].
  - intros _. simpl. destruct (decide (has_metadata [] l)) as [Hin|]; [|done].
    by apply elem_of_nil in Hin.
  - rewrite fmap_cons. intros [Hm Hnd]%NoDup_cons. rewrite filter_cons.
    specialize (IH Hnd).
    destruct (decide (Movie.movieId m = Target.id l)) as [Heq|Hne].
    + simpl. rewrite IH, decide_False, decide_True; [done| |].
      * unfold has_metadata. rewrite fmap_cons, Heq. left.
      * unfold has_metadata. by rewrite <- Heq.
    + rewrite IH. apply decide_ext. unfold has_metadata.
      rewrite fmap_cons, elem_of_cons. split; [by right|].
      by intros [Heq|Hin].
Qed.

Lemma filter_Forall_id {A} (P : A → Prop) `{∀ x, Decision (P x)} (l : list A) :
  Forall P l → filter P l = l.
Proof.
  induction 1 as [|x l Hx _ IH]; [done|].
  by rewrite filter_cons, decide_True, IH.
Qed.

Lemma length_shown_table (top : list Target.row) (movies : list Movie.row) :
  length (shown_table top movies) = sum_list (length ∘ matches movies <$> top).
Proof.
  unfold shown_table. rewrite length_fmap.
  induction top as [|l top IH]; [done|].
  rewrite merge_cons, length_app, length_fmap, IH. reflexivity.
Qed.

Lemma length_shown_table_NoDup (top : list Target.row) (movies : list Movie.row) :
  NoDup (Movie.movieId <$> movies) →
  length (shown_table top movies) = length (filter (has_metadata movies) top).
Proof.
  intros Hnd. rewrite length_shown_table.
  induction top as [|l top IH]; [done|].
  rewrite fmap_cons, filter_cons. simpl.
  rewrite (length_matches_NoDup _ _ Hnd), IH.
  by destruct (decide (has_metadata movies l)).
Qed.

(** C3, as stated, fails twice. On the tables shaped like the recorded
    run, twelve items of which eleven are unwatched, the displayed table
    has nine rows: movies.csv has no row for item 1470. With two metadata
    rows for one movieId the displayed table has eleven rows. *)
Lemma shown_table_not_always_ten :
  (∃ env shown w,
     notebook Examples.recorded = inr (env, shown) ∧
     watched_ids env = Some w ∧
     10 ≤ length (unwatched w (item_embedding_csv Examples.recorded)) ∧
     length shown = 9) ∧
  (∃ env shown,
     notebook Examples.duplicated = inr (env, shown) ∧ length shown = 11).
Proof.
  split.
  - eexists _, _, _. split; [vm_compute; reflexivity|].
    split; [reflexivity|]. split; [vm_compute; lia|reflexivity].
  - eexists _, _. split; [vm_compute; reflexivity|]. reflexivity.
Qed.

(** C3, amended. After a complete run, [df_target_movieIds] has exactly
    10 rows when the item embedding table has at least 10 rows whose id
    is not in the watched set, and never more than 10. The displayed
    table has one row for every pair of a row of [df_target_movieIds] and
    a row of movies.csv with the same movieId; when the movieIds of
    movies.csv are distinct, it has as many rows as [df_target_movieIds]
    has ids with metadata, hence at most 10, and exactly as many as
    [df_target_movieIds] when every recommended id has metadata. *)
Theorem top_ten_row_counts
    (files : Inputs) (env : Env) (shown : list Shown.row) :
  notebook files = inr (env, shown) →
  ∃ (top : list Target.row) (w : gset Z),
    df_target_movieIds env = Some top ∧
    watched_ids env = Some w ∧
    length top = min 10 (length (unwatched w (item_embedding_csv files))) ∧
    length shown = sum_list (length ∘ matches (movies_csv files) <$> top) ∧
    (NoDup (Movie.movieId <$> movies_csv files) →
     length shown = length (filter (has_metadata (movies_csv files)) top) ∧
     length shown ≤ 10 ∧
     (Forall (has_metadata (movies_csv files)) top → length shown = length top)).
Proof.
  intros (u & rows & _ & Hrows & -> & ->)%notebook_inr. simpl.
  set (w := movie_ids_of_user target_user_id (ratings_csv files)).
  exists (target_movieIds w rows), w.
  assert (Hlen : length (target_movieIds w rows)
                 = min 10 (length (unwatched w (item_embedding_csv files)))).
  { rewrite length_target_movieIds, length_not_isin.
    by rewrite (series_map_score_base _ _ _ Hrows). }
  split_and!; try done.
  - apply length_shown_table.
  - intros Hnd. rewrite (length_shown_table_NoDup _ _ Hnd). split_and!; [done| |].
    + etrans; [apply length_filter|]. lia.
    + intros Hall. f_equal. by apply filter_Forall_id.
Qed.

Lemma top_ten_row_counts_witness :
  ∃ env shown top,
    notebook Examples.recorded = inr (env, shown) ∧
    df_target_movieIds env = Some top ∧
    length top = 10 ∧ length shown = 9 ∧ length shown ≤ 10.
Proof.
  destruct (notebook Examples.recorded) as [e|[env shown]] eqn:Hrun;
    [vm_compute in Hrun; discriminate|].
  destruct (top_ten_row_counts _ _ _ Hrun)
    as (top & w & Htop & Hw & Hlen & _ & Hshown).
  destruct Hshown as (Hmeta & Hle & _).
  { apply (bool_decide_unpack _). vm_compute. exact I. }
  exists env, shown, top. split_and!; try done.
  - rewrite Hlen. vm_compute in Hrun. injection Hrun as <- _.
    injection Hw as <-. vm_compute. reflexivity.
  - vm_compute in Hrun. injection Hrun as _ <-. reflexivity.
Defined.

(** ** The target user's vector *)

Lemma rows_with_id_nil (k : Z) (df : list Embedding.row) :
  k ∉ Embedding.id <$> df → rows_with_id k df = [].
Proof.
  unfold rows_with_id. induction df as [|r df IH]; [done|].
  rewrite fmap_cons, not_elem_of_cons. intros [Hne Hnin].
  rewrite filter_cons, decide_False by done. by apply IH.
Qed.

Lemma rows_with_id_first (k : Z) (pre post : list Embedding.row) (r : Embedding.row) :
  k ∉ Embedding.id <$> pre → Embedding.id r = k →
  rows_with_id k (pre ++ r :: post) = r :: rows_with_id k post.
Proof.
  intros Hpre Hr. unfold rows_with_id.
  rewrite filter_app, filter_cons, decide_True by done.
  fold (rows_with_id k pre). by rewrite (rows_with_id_nil _ _ Hpre).
Qed.

Lemma first_row_with_id (k : Z) (df : list Embedding.row) :
  k ∈ Embedding.id <$> df →
  ∃ pre r post, df = pre ++ r :: post ∧ Embedding.id r = k ∧ k ∉ Embedding.id <$> pre.
Proof.
  induction df as [|r df IH]; [by intros ?%elem_of_nil|].
  rewrite fmap_cons. intros Hin.
  destruct (decide (Embedding.id r = k)) as [Heq|Hne].
  - exists [], r, df. split_and!; [done..|]. apply not_elem_of_nil.
  - apply elem_of_cons in Hin as [Heq|Hin]; [done|].
    destruct (IH Hin) as (pre & r' & post & -> & Hr' & Hpre).
    exists (r :: pre), r', post. split_and!; [done..|].
    rewrite fmap_cons, not_elem_of_cons. split; [congruence|done].
Qed.

(** C8. Cell 29 raises [IndexError] when no row of the user embedding
    table has the target user's id, and raises nothing else in that case;
    when some row has it, the cell succeeds and [user_embedding] becomes
    the [features] of the first such row, every other variable keeping
    its value. *)
Theorem user_embedding_lookup (env : Env) :
  (target_user_id ∉ Embedding.id <$> df_user_embedding env →
   cell_29 env = inl IndexError) ∧
  (target_user_id ∈ Embedding.id <$> df_user_embedding env →
   ∃ pre r post,
     df_user_embedding env = pre ++ r :: post ∧
     Embedding.id r = target_user_id ∧
     (target_user_id ∉ Embedding.id <$> pre) ∧
     cell_29 env = inr (set_user_embedding (Embedding.features r) env)).
Proof.
  unfold cell_29. split.
  - intros Hnin. by rewrite (rows_with_id_nil _ _ Hnin).
  - intros (pre & r & post & Hdf & Hr & Hpre)%first_row_with_id.
    exists pre, r, post. split_and!; try done.
    by rewrite Hdf, (rows_with_id_first _ _ _ _ Hpre Hr).
Qed.

Lemma user_embedding_lookup_witness :
  cell_29 (cell_25 Examples.no_target_user) = inl IndexError ∧
  ∃ env, cell_29 (cell_25 Examples.small) = inr env ∧
         user_embedding env = Some [1; 0]%float.
Proof.
  split.
  - apply (user_embedding_lookup (cell_25 Examples.no_target_user)).
    vm_compute. by intros [H|H]%elem_of_cons; [|apply elem_of_nil in H].
  - destruct (proj2 (user_embedding_lookup (cell_25 Examples.small)))
      as (pre & r & post & Hdf & Hr & Hpre & Hcell).
    { apply (bool_decide_unpack _). vm_compute. exact I. }
    eexists. split; [exact Hcell|].
    destruct pre as [|r0 pre].
    + injection Hdf as <- _. vm_compute in Hr. discriminate.
    + injection Hdf as <- Hdf. destruct pre as [|r1 pre].
      * by injection Hdf as <- _.
      * injection Hdf as _ Hdf. by destruct pre.
Defined.

(** ** The metadata join *)

(** C9. After a complete run, cell 41 has raised nothing and the
    displayed table holds exactly the rows obtained by pairing a row of
    [df_target_movieIds] with a row of movies.csv of the same movieId: a
    recommended id without a row in movies.csv is absent from the
    displayed table, and the displayed table is no longer than
    [df_target_movieIds] when movies.csv has distinct movieIds. *)
Theorem merge_drops_ids_without_metadata
    (files : Inputs) (env : Env) (shown : list Shown.row) :
  notebook files = inr (env, shown) →
  ∃ top : list Target.row,
    df_target_movieIds env = Some top ∧
    cell_41 env = inr shown ∧
    (∀ s, s ∈ shown ↔
          ∃ l m, l ∈ top ∧ m ∈ movies_csv files ∧
                 Movie.movieId m = Target.id l ∧
                 s = Shown.mk (Movie.movieId m) (Movie.title m) (Movie.genres m)
                       (Target.sim_value l)) ∧
    (∀ l, l ∈ top → ¬ has_metadata (movies_csv files) l →
          Target.id l ∉ Shown.movieId <$> shown) ∧
    (∀ l, l ∈ top → has_metadata (movies_csv files) l →
          Target.id l ∈ Shown.movieId <$> shown) ∧
    (NoDup (Movie.movieId <$> movies_csv files) →
     Shown.movieId <$> shown
     = Target.id <$> filter (has_metadata (movies_csv files)) top).
Proof.
  intros (u & rows & _ & _ & -> & ->)%notebook_inr. simpl.
  set (w := movie_ids_of_user target_user_id (ratings_csv files)).
  set (top := target_movieIds w rows). set (movies := movies_csv files).
  exists top. split_and!; try done.
  - apply elem_of_shown_table.
  - intros l Hl Hno (s & Hs & (l' & m & _ & Hm & Hk & ->)%elem_of_shown_table)%list_elem_of_fmap.
    simpl in Hs. apply Hno. unfold has_metadata. rewrite Hs.
    by apply list_elem_of_fmap_2.
  - intros l Hl (m & Hk & Hm)%list_elem_of_fmap.
    apply list_elem_of_fmap.
    exists (Shown.mk (Movie.movieId m) (Movie.title m) (Movie.genres m) (Target.sim_value l)).
    split; [done|]. apply elem_of_shown_table. by exists l, m.
  - intros Hnd. unfold shown_table. rewrite <- list_fmap_compose.
    induction top as [|l top' IH]; [done|].
    rewrite merge_cons, fmap_app, IH, filter_cons. clear IH.
    pose proof (length_matches_NoDup movies l Hnd) as Hlen.
    destruct (decide (has_metadata movies l)) as [Hmeta|Hmeta].
    + destruct (matches movies l) as [|m [|m' ms]] eqn:Hms; simplify_eq/=.
      f_equal. assert (m ∈ matches movies l) as Hm by (rewrite Hms; left).
      by apply list_elem_of_filter in Hm as [Hm _].
    + by destruct (matches movies l).
Qed.

Lemma merge_drops_ids_without_metadata_witness :
  ∃ env shown top,
    notebook Examples.recorded = inr (env, shown) ∧
    df_target_movieIds env = Some top ∧
    1470%Z ∈ Target.id <$> top ∧
    (1470%Z ∉ Shown.movieId <$> shown) ∧
    length shown < 10.
Proof.
  destruct (notebook Examples.recorded) as [e|[env shown]] eqn:Hrun;
    [vm_compute in Hrun; discriminate|].
  destruct (merge_drops_ids_without_metadata _ _ _ Hrun)
    as (top & Htop & _ & _ & Hdrop & _).
  exists env, shown, top.
  vm_compute in Hrun. injection Hrun as <- <-. injection Htop as <-.
  split_and!; try reflexivity.
  - apply (bool_decide_unpack _). vm_compute. exact I.
  - eapply (Hdrop (Target.mk 1470 _)).
    + eapply (list_elem_of_lookup_2 _ 5). reflexivity.
    + apply (bool_decide_unpack _). vm_compute. exact I.
  - simpl. lia.
Defined.

(** ** What the similarity and ranking cells leave alone *)

Lemma cell_32_inr (env env' : Env) :
  cell_32 env = inr env' ↔
  ∃ rows,
    series_map (score_row env) (frame_rows (df_movie_embedding env)) = inr rows ∧
    env' = set_df_movie_embedding (WithSim rows) env.
Proof.
  unfold cell_32. rewrite bind_inr. split.
  - intros (rows & Hrows & [= <-]). by exists rows.
  - intros (rows & Hrows & ->). by exists rows.
Qed.

Lemma cell_39_inr (env env' : Env) :
  cell_39 env = inr env' ↔
  ∃ w rows,
    watched_ids env = Some w ∧
    df_movie_embedding env = WithSim rows ∧
    env' = set_df_target_movieIds (target_movieIds w rows) env.
Proof.
  unfold cell_39. rewrite bind_inr. split.
  - intros (w & Hw & (rows & Hrows & [= <-])%bind_inr).
    destruct (watched_ids env) as [w'|]; [|discriminate].
    destruct (df_movie_embedding env) as [|rows']; [discriminate|].
    injection Hw as ->. injection Hrows as ->. by exists w, rows.
  - intros (w & rows & Hw & Hrows & ->). exists w. rewrite Hw, Hrows. done.
Qed.

(** C10. Cell 32 leaves the rows of the item embedding table in place,
    each with its id and its features, and touches no other variable;
    cell 39 assigns [df_target_movieIds] and leaves the item embedding
    table (its [sim_value] column included), the watched set and the
    rating data as they were. *)
Theorem similarity_and_ranking_preserve_tables (env env32 env36 env39 : Env) :
  cell_32 env = inr env32 →
  cell_36 env32 = inr env36 →
  cell_39 env36 = inr env39 →
  (frame_rows (df_movie_embedding env32) = frame_rows (df_movie_embedding env) ∧
   Embedding.id <$> frame_rows (df_movie_embedding env32)
     = Embedding.id <$> frame_rows (df_movie_embedding env) ∧
   Embedding.features <$> frame_rows (df_movie_embedding env32)
     = Embedding.features <$> frame_rows (df_movie_embedding env) ∧
   df_rating env32 = df_rating env ∧
   df_movie env32 = df_movie env ∧
   df_user_embedding env32 = df_user_embedding env ∧
   user_embedding env32 = user_embedding env ∧
   watched_ids env32 = watched_ids env) ∧
  (df_movie_embedding env39 = df_movie_embedding env36 ∧
   df_movie_embedding env39 = df_movie_embedding env32 ∧
   watched_ids env39 = watched_ids env36 ∧
   df_rating env39 = df_rating env36 ∧
   df_rating env39 = df_rating env ∧
   df_movie env39 = df_movie env ∧
   df_user_embedding env39 = df_user_embedding env ∧
   user_embedding env39 = user_embedding env).
Proof.
  intros (rows & Hrows & ->)%cell_32_inr [= <-]
         (w & rows' & Hw & Hrows' & ->)%cell_39_inr.
  simpl in *. apply series_map_score_row_base in Hrows.
  split; split_and!; try done; by rewrite Hrows.
Qed.

Lemma similarity_and_ranking_preserve_tables_witness :
  ∃ env env32 env36 env39,
    cell_29 (cell_25 Examples.small) = inr env ∧
    cell_32 env = inr env32 ∧ cell_36 env32 = inr env36 ∧ cell_39 env36 = inr env39 ∧
    frame_rows (df_movie_embedding env39) = item_embedding_csv Examples.small ∧
    df_rating env39 = ratings_csv Examples.small.
Proof.
  destruct (cell_29 (cell_25 Examples.small)) as [e|env] eqn:H29;
    [vm_compute in H29; discriminate|].
  destruct (cell_32 env) as [e|env32] eqn:H32;
    [vm_compute in H29; injection H29 as <-; vm_compute in H32; discriminate|].
  destruct (cell_36 env32) as [e|env36] eqn:H36; [discriminate|].
  destruct (cell_39 env36) as [e|env39] eqn:H39.
  { vm_compute in H29; injection H29 as <-. vm_compute in H32; injection H32 as <-.
    vm_compute in H36; injection H36 as <-. vm_compute in H39. discriminate. }
  exists env, env32, env36, env39. split_and!; try assumption; try reflexivity.
  - destruct (similarity_and_ranking_preserve_tables _ _ _ _ H32 H36 H39)
      as [(Hrows & _) (_ & -> & _)].
    rewrite Hrows. vm_compute in H29. by injection H29 as <-.
  - destruct (similarity_and_ranking_preserve_tables _ _ _ _ H32 H36 H39)
      as [_ (_ & _ & _ & _ & -> & _)].
    vm_compute in H29. by injection H29 as <-.
Defined.

(** ** When the notebook runs to the end *)

Lemma sim_value_of_inr_length {T} `{Arith T} (u x : list T) (s : T) :
  sim_value_of u x = inr s → length u = length x.
Proof.
  intros (d & Hd & _)%bind_inr. unfold cosine in Hd. by case_decide.
Qed.

Lemma sim_value_of_same_length {T} `{Arith T} (u x : list T) :
  length u = length x → ∃ s, sim_value_of u x = inr s.
Proof.
  intros Hlen. unfold sim_value_of, cosine. rewrite decide_True by done.
  by eexists.
Qed.

(** Cell 32 gets through exactly when every item vector has as many
    components as the target user's: scipy refuses the others. *)
Lemma scores_need_equal_lengths (u : vector) (df : list Embedding.row) :
  (∃ rows, series_map (score u) df = inr rows) ↔
  Forall (λ r, length (Embedding.features r) = length u) df.
Proof.
  split.
  - intros [rows Hrows]. apply series_map_inr in Hrows.
    induction Hrows as [|r r' df rows Hr _ IH]; constructor; [|done].
    apply score_inr in Hr as [_ Hs]. symmetry. by eapply sim_value_of_inr_length.
  - induction 1 as [|r df Hr _ [rows IH]]; [by exists []|].
    destruct (sim_value_of_same_length u (Embedding.features r)) as [s Hs]; [done|].
    exists (Scored.mk (Embedding.id r) (Embedding.features r) s :: rows).
    apply series_map_inr. constructor; [|by apply series_map_inr].
    apply score_inr. by destruct r.
Qed.

(** The notebook reaches the end of cell 41 exactly when the user
    embedding table has a row for the target user and every item vector
    has the length of that row's vector; otherwise it stops with the
    [IndexError] of cell 29 or the [ValueError] of cell 32. *)
Lemma notebook_completes (files : Inputs) :
  (∃ env shown, notebook files = inr (env, shown)) ↔
  ∃ u, iloc_0_1 (rows_with_id target_user_id (user_embedding_csv files)) = inr u ∧
       Forall (λ r, length (Embedding.features r) = length u) (item_embedding_csv files).
Proof.
  split.
  - intros (env & shown & (u & rows & Hu & Hrows & _)%notebook_inr).
    exists u. split; [done|]. apply scores_need_equal_lengths. eauto.
  - intros (u & Hu & [rows Hrows]%scores_need_equal_lengths).
    eexists _, _. apply notebook_inr. by exists u, rows.
Qed.

(** ** The similarity score in exact arithmetic *)

Section exact_arithmetic.
Local Open Scope R_scope.

Lemma fold_left_dot (u v : list R) (acc : R) :
  fold_left (λ acc p, acc + p.1 * p.2) (zip u v) acc = acc + inner u v.
Proof.
  revert v acc. induction u as [|a u IH]; intros [|b v] acc; simpl; try lra.
  rewrite IH. lra.
Qed.

Lemma dot_inner (u v : list R) : dot u v = inner u v.
Proof. unfold dot. simpl. rewrite fold_left_dot. lra. Qed.

Lemma inner_self_nonneg (u : list R) : 0 <= inner u u.
Proof. induction u as [|a u IH]; simpl; [lra|nra]. Qed.

Lemma inner_self_pos (u : list R) : nonzero u → 0 < inner u u.
Proof.
  induction 1 as [a u Ha|a u _ IH]; simpl.
  - pose proof (inner_self_nonneg u). nra.
  - nra.
Qed.

Lemma two_products_le_sum (X Y t : R) :
  0 <= X → 0 <= Y → t * t <= X * Y → 2 * t <= X + Y.
Proof.
  intros HX HY Ht.
  destruct (Rle_lt_dec (2 * t) (X + Y)) as [H|H]; [exact H|exfalso].
  assert (H1 : (X + Y) * (X + Y) < (2 * t) * (2 * t))
    by (apply Rmult_le_0_lt_compat; lra).
  pose proof (Rle_0_sqr (X - Y)) as H2. unfold Rsqr in H2. lra.
Qed.

(** Cauchy-Schwarz, by induction on the two lists. *)
Lemma inner_sqr_le (u v : list R) :
  inner u v * inner u v <= inner u u * inner v v.
Proof.
  revert v. induction u as [|a u IH]; intros [|b v]; simpl; try lra.
  specialize (IH v).
  pose proof (inner_self_nonneg u) as Hp.
  pose proof (inner_self_nonneg v) as Hq.
  set (s := inner u v) in *. set (p := inner u u) in *. set (q := inner v v) in *.
  assert (Ha : 0 <= a * a) by apply Rle_0_sqr.
  assert (Hb : 0 <= b * b) by apply Rle_0_sqr.
  assert (HX : 0 <= a * a * q) by (apply Rmult_le_pos; lra).
  assert (HY : 0 <= b * b * p) by (apply Rmult_le_pos; lra).
  assert (Ht : (a * b * s) * (a * b * s) <= (a * a * q) * (b * b * p)).
  { replace ((a * b * s) * (a * b * s)) with ((a * a * (b * b)) * (s * s)) by ring.
    replace ((a * a * q) * (b * b * p)) with ((a * a * (b * b)) * (p * q)) by ring.
    apply Rmult_le_compat_l; [apply Rmult_le_pos; lra|exact IH]. }
  pose proof (two_products_le_sum _ _ _ HX HY Ht) as Hsum.
  replace ((a * b + s) * (a * b + s))
    with (a * a * (b * b) + 2 * (a * b * s) + s * s) by ring.
  replace ((a * a + p) * (b * b + q))
    with (a * a * (b * b) + (a * a * q + b * b * p) + p * q) by ring.
  lra.
Qed.

Lemma norm_pos (u : list R) : nonzero u → 0 < norm u.
Proof. intros Hu. apply sqrt_lt_R0. by apply inner_self_pos. Qed.

Lemma norm_sqr (u : list R) : norm u * norm u = inner u u.
Proof. apply sqrt_sqrt, inner_self_nonneg. Qed.

Lemma sqrt_inner_mult (u v : list R) :
  R_sqrt.sqrt (inner u u * inner v v) = norm u * norm v.
Proof. apply sqrt_mult; apply inner_self_nonneg. Qed.

Lemma inner_abs_le (u v : list R) :
  - (norm u * norm v) <= inner u v <= norm u * norm v.
Proof.
  pose proof (inner_sqr_le u v) as Hcs.
  rewrite <- (norm_sqr u), <- (norm_sqr v) in Hcs.
  assert (HN : 0 <= norm u * norm v)
    by (apply Rmult_le_pos; apply sqrt_pos).
  set (N := norm u * norm v) in *. set (s := inner u v) in *.
  assert (Hs : s * s <= N * N) by (unfold N; lra).
  split.
  - destruct (Rle_lt_dec (- N) s) as [H|H]; [exact H|exfalso].
    assert (N * N < (- s) * (- s)) by (apply Rmult_le_0_lt_compat; lra). lra.
  - destruct (Rle_lt_dec s N) as [H|H]; [exact H|exfalso].
    assert (N * N < s * s) by (apply Rmult_le_0_lt_compat; lra). lra.
Qed.

Lemma cosine_bounds (u v : list R) :
  nonzero u → nonzero v → -1 <= inner u v / (norm u * norm v) <= 1.
Proof.
  intros Hu Hv.
  pose proof (Rmult_lt_0_compat _ _ (norm_pos u Hu) (norm_pos v Hv)) as HN.
  pose proof (inner_abs_le u v) as [Hlo Hhi].
  split.
  - apply Rmult_le_reg_r with (norm u * norm v); [exact HN|].
    unfold Rdiv. rewrite Rmult_assoc, Rinv_l by lra. lra.
  - apply Rmult_le_reg_r with (norm u * norm v); [exact HN|].
    unfold Rdiv. rewrite Rmult_assoc, Rinv_l by lra. lra.
Qed.

Lemma clip_id (x lo hi : R) : lo <= x <= hi → clip x lo hi = x.
Proof.
  intros [Hlo Hhi]. unfold clip. simpl.
  destruct (Rlt_dec x lo); [lra|]. destruct (Rlt_dec hi x); [lra|]. reflexivity.
Qed.

(** In exact arithmetic the library's clipping never acts: the cosine
    distance of two non-zero vectors lies between 0 and 2 already. *)
Lemma cosine_exact (u v : list R) :
  length u = length v → nonzero u → nonzero v →
  cosine u v = inr (1 - inner u v / (norm u * norm v)).
Proof.
  intros Hlen Hu Hv. unfold cosine. rewrite decide_True by done.
  cbv zeta. rewrite !dot_inner. simpl. rewrite sqrt_inner_mult.
  pose proof (cosine_bounds u v Hu Hv).
  unfold mret, result_ret. f_equal. apply clip_id. lra.
Qed.

Lemma cosine_inr_length (u v : list R) (d : R) :
  cosine u v = inr d → length u = length v.
Proof. unfold cosine. by case_decide. Qed.
End exact_arithmetic.

Lemma cell_32_column (env env' : Env) :
  cell_32 env = inr env' →
  ∃ rows,
    df_movie_embedding env' = WithSim rows ∧
    Scored.base <$> rows = frame_rows (df_movie_embedding env) ∧
    Forall (λ r, ∃ u, user_embedding env = Some u ∧
                      sim_value_of u (Scored.features r) = inr (Scored.sim_value r)) rows.
Proof.
  intros (rows & Hrows & ->)%cell_32_inr.
  exists rows. split_and!; [done|by eapply series_map_score_row_base|].
  apply series_map_inr in Hrows.
  induction Hrows as [|r r' df rows Hr _ IH]; constructor; [|done].
  apply score_row_inr in Hr as (u & Hu & [<- Hs]%score_inr). eauto.
Qed.



(** In binary64 the two subtractions round: for the vectors (1, 0) and
    (1, 3) the notebook stores 0.316227766016838, which is greater than
    0.31622776601683794, the value of the quotient itself. *)
Example sim_value_binary64_rounds :
  ∃ s, sim_value_of [1; 0]%float [1; 3]%float = inr s ∧
       (1 / PrimFloat.sqrt 10 <? s)%float = true.
Proof. eexists. split; [vm_compute; reflexivity|]. vm_compute. reflexivity. Qed.

(** ** Cold start *)

Lemma series_map_elem_of {A B} (f : A → result B) (l : list A) (l' : list B) (y : B) :
  series_map f l = inr l' → y ∈ l' → ∃ x, x ∈ l ∧ f x = inr y.
Proof.
  rewrite series_map_inr. induction 1 as [|x y' l l' Hxy _ IH].
  - by intros ?%elem_of_nil.
  - intros [->|Hy]%elem_of_cons.
    + exists x. split; [left|done].
    + destruct (IH Hy) as (x' & Hx' & Hf). exists x'. split; [by right|done].
Qed.

Lemma left_join_Some (k : Z) (factors : list Spark.factor) (v : list Spark.float32) :
  Some v ∈ Spark.left_join k factors → k ∈ Spark.id <$> factors.
Proof.
  unfold Spark.left_join.
  destruct (filter _ factors) as [|f fs] eqn:Hfs.
  - intros [=]%list_elem_of_singleton.
  - intros (f' & _ & Hf')%list_elem_of_fmap. rewrite <- Hfs in Hf'.
    apply list_elem_of_filter in Hf' as [<- Hf']. by apply list_elem_of_fmap_2.
Qed.

Lemma predict_not_nan (n : nat) (a b : option (list Spark.float32)) (p : Spark.float32) :
  Spark.predict n a b = inr p → Spark.is_nan32 p = false → is_Some a ∧ is_Some b.
Proof.
  destruct a as [fa|], b as [fb|]; simpl; intros Hp Hnan;
    try (injection Hp as <-; discriminate).
  split; by eexists.
Qed.

Lemma elem_of_predictions (m : Spark.ALSModel) (dataset : list Rating.row)
    (ps : list Spark.predicted) (p : Spark.predicted) :
  Spark.predictions m dataset = inr ps → p ∈ ps →
  ∃ a b,
    Spark.input p ∈ dataset ∧
    a ∈ Spark.left_join (Rating.userId (Spark.input p)) (Spark.userFactors m) ∧
    b ∈ Spark.left_join (Rating.movieId (Spark.input p)) (Spark.itemFactors m) ∧
    Spark.predict (Spark.rank (Spark.params m)) a b = inr (Spark.prediction p).
Proof.
  unfold Spark.predictions. intros Hps Hp.
  destruct (series_map_elem_of _ _ _ _ Hps Hp) as ([[r a] b] & Hin & Hf).
  apply bind_inr in Hf as (v & Hv & [= <-]). simpl.
  apply list_elem_of_bind in Hin as (r' & Hin & Hr').
  apply list_elem_of_bind in Hin as (a' & Hin & Ha').
  apply list_elem_of_bind in Hin as (b' & Hin & Hb').
  apply list_elem_of_singleton in Hin as [= -> -> ->].
  by exists a', b'.
Qed.

(** C6. The estimator of cell 12 carries the "drop" strategy. For a
    model with that strategy, every row that [transform] returns comes
    from the data, has a prediction that is not NaN, and belongs to a
    user with a row in [userFactors] and an item with a row in
    [itemFactors]; so a row of the data whose user or item the model has
    not seen yields no prediction row. *)
Theorem cold_start_rows_are_dropped
    (m : Spark.ALSModel) (dataset : list Rating.row) (out : list Spark.predicted) :
  Spark.coldStartStrategy (Spark.params m) = Spark.coldStartStrategy Spark.als →
  Spark.transform m dataset = inr out →
  Spark.coldStartStrategy Spark.als = Spark.drop ∧
  (∀ p, p ∈ out →
        Spark.is_nan32 (Spark.prediction p) = false ∧
        Spark.input p ∈ dataset ∧
        Rating.userId (Spark.input p) ∈ Spark.id <$> Spark.userFactors m ∧
        Rating.movieId (Spark.input p) ∈ Spark.id <$> Spark.itemFactors m) ∧
  (∀ r, r ∈ dataset →
        Rating.userId r ∉ Spark.id <$> Spark.userFactors m ∨
        Rating.movieId r ∉ Spark.id <$> Spark.itemFactors m →
        r ∉ Spark.input <$> out).
Proof.
  intros Hdrop (ps & Hps & Hout)%bind_inr.
  rewrite Hdrop in Hout. simpl in Hout. injection Hout as <-.
  assert (Hrows : ∀ p, p ∈ filter (λ p, Spark.is_nan32 (Spark.prediction p) = false) ps →
            Spark.is_nan32 (Spark.prediction p) = false ∧
            Spark.input p ∈ dataset ∧
            Rating.userId (Spark.input p) ∈ Spark.id <$> Spark.userFactors m ∧
            Rating.movieId (Spark.input p) ∈ Spark.id <$> Spark.itemFactors m).
  { intros p [Hnan Hp]%list_elem_of_filter.
    destruct (elem_of_predictions _ _ _ _ Hps Hp) as (a & b & Hin & Ha & Hb & Hpred).
    destruct (predict_not_nan _ _ _ _ Hpred Hnan) as [[fa ->] [fb ->]].
    split_and!; [done..| |]; by eapply left_join_Some. }
  split_and!; [done..|].
  intros r _ Hunseen (p & -> & Hp)%list_elem_of_fmap.
  destruct (Hrows p Hp) as (_ & _ & Hu & Hi). by destruct Hunseen.
Qed.

Lemma cold_start_rows_are_dropped_witness :
  ∃ out,
    Spark.transform Examples.fitted Examples.to_predict = inr out ∧
    Spark.input <$> out = [Rating.mk 1 10 5 978300760] ∧
    Rating.mk 3 10 4 978302109 ∉ Spark.input <$> out.
Proof.
  destruct (Spark.transform Examples.fitted Examples.to_predict) as [e|out] eqn:Hrun;
    [vm_compute in Hrun; discriminate|].
  exists out. split; [reflexivity|].
  destruct (cold_start_rows_are_dropped Examples.fitted _ _ eq_refl Hrun)
    as (_ & _ & Hdropped).
  split.
  - vm_compute in Hrun. by injection Hrun as <-.
  - apply Hdropped.
    + eapply (list_elem_of_lookup_2 _ 1). reflexivity.
    + left. apply (bool_decide_unpack _). vm_compute. exact I.
Defined.

(** Under the default strategy the same rows stay, with a NaN prediction. *)
Example cold_start_nan_keeps_rows :
  ∃ out,
    Spark.transform Examples.fitted_nan Examples.to_predict = inr out ∧
    Spark.input <$> out = Examples.to_predict ∧
    Spark.is_nan32 ∘ Spark.prediction <$> out = [false; true; true].
Proof. eexists. split; [vm_compute; reflexivity|]. split; reflexivity. Qed.

(** * Further properties of the notebook *)

(** ** How a run can end *)

Lemma series_map_nil_inr {A B} (f : A → result B) : series_map f [] = inr [].
Proof. reflexivity. Qed.

Lemma series_map_inl {A B} (f : A → result B) (e : exn) (l : list A) :
  Forall (λ x, (∃ y, f x = inr y) ∨ f x = inl e) l →
  Exists (λ x, f x = inl e) l →
  series_map f l = inl e.
Proof.
  induction 1 as [|x l Hx Hl IH]; [by intros ?%Exists_nil|].
  intros Hex. simpl. destruct Hx as [[y Hy]|Hx].
  - rewrite Hy. simpl. apply Exists_cons in Hex as [Hex|Hex]; [congruence|].
    by rewrite (IH Hex).
  - by rewrite Hx.
Qed.

Lemma score_outcome (u : vector) (r : Embedding.row) :
  (length u = length (Embedding.features r) ∧ ∃ r', score u r = inr r') ∨
  (length u ≠ length (Embedding.features r) ∧ score u r = inl ValueError).
Proof.
  unfold score, sim_value_of, cosine.
  destruct (decide (length u = length (Embedding.features r))) as [Hlen|Hlen].
  - left. split; [done|]. by eexists.
  - right. done.
Qed.

Lemma series_map_score_ValueError (u : vector) (df : list Embedding.row) :
  ¬ Forall (λ r, length (Embedding.features r) = length u) df →
  series_map (score u) df = inl ValueError.
Proof.
  intros Hnot. apply series_map_inl.
  - apply Forall_forall. intros r _.
    destruct (score_outcome u r) as [[_ Hr]|[_ Hr]]; auto.
  - apply not_Forall_Exists in Hnot; [|apply _].
    eapply Exists_impl; [exact Hnot|]. intros r Hr. simpl in Hr.
    destruct (score_outcome u r) as [[Hlen _]|[_ Hs]]; [congruence|done].
Qed.

(** X1. Cell 32 on any state of the variables. On an item table without
    rows it succeeds and adds an empty [sim_value] column, whether or not
    [user_embedding] has been assigned; on a table with rows it raises
    [NameError] when [user_embedding] is unassigned; with the variable
    assigned it succeeds, keeping the rows, when every item vector has the
    length of the user's vector, and raises [ValueError] otherwise. *)
Theorem cell_32_outcome (env : Env) :
  (frame_rows (df_movie_embedding env) = [] →
   cell_32 env = inr (set_df_movie_embedding (WithSim []) env)) ∧
  (frame_rows (df_movie_embedding env) ≠ [] → user_embedding env = None →
   cell_32 env = inl (NameError "user_embedding")) ∧
  (∀ u, user_embedding env = Some u →
     (Forall (λ r, length (Embedding.features r) = length u)
             (frame_rows (df_movie_embedding env)) →
      ∃ rows, cell_32 env = inr (set_df_movie_embedding (WithSim rows) env) ∧
              Scored.base <$> rows = frame_rows (df_movie_embedding env)) ∧
     (¬ Forall (λ r, length (Embedding.features r) = length u)
               (frame_rows (df_movie_embedding env)) →
      cell_32 env = inl ValueError)).
Proof.
  unfold cell_32. split_and!.
  - intros ->. reflexivity.
  - intros Hne Hu. destruct (frame_rows _) as [|r df]; [done|].
    simpl. unfold score_row. by rewrite Hu.
  - intros u Hu.
    assert (Hscore : series_map (score_row env) (frame_rows (df_movie_embedding env))
                     = series_map (score u) (frame_rows (df_movie_embedding env))).
    { induction (frame_rows _) as [|r df IH]; [done|]. simpl.
      rewrite IH. unfold score_row. by rewrite Hu. }
    rewrite Hscore. split.
    + intros [rows Hrows]%scores_need_equal_lengths. exists rows.
      rewrite Hrows. split; [done|]. by eapply series_map_score_base.
    + intros Hnot. by rewrite (series_map_score_ValueError _ _ Hnot).
Qed.

Lemma cell_32_outcome_witness :
  (∃ env, cell_32 MoreExamples.fresh_empty = inr env ∧
          df_movie_embedding env = WithSim []) ∧
  cell_32 MoreExamples.fresh = inl (NameError "user_embedding") ∧
  (∃ env, cell_29 (cell_25 MoreExamples.ragged) = inr env ∧
          cell_32 env = inl ValueError).
Proof.
  split_and!.
  - eexists.
    split; [by apply (proj1 (cell_32_outcome MoreExamples.fresh_empty))|reflexivity].
  - by apply (proj1 (proj2 (cell_32_outcome MoreExamples.fresh))).
  - destruct (cell_29 (cell_25 MoreExamples.ragged)) as [e|env] eqn:H29;
      [vm_compute in H29; discriminate|].
    exists env. split; [reflexivity|].
    vm_compute in H29. injection H29 as <-.
    eapply (proj2 (proj2 (cell_32_outcome _))); [reflexivity|].
    intros Hall. rewrite Forall_forall in Hall.
    specialize (Hall (Embedding.mk 60 [1; 2; 3]%float)).
    assert (Hlen : 3 = 2); [|discriminate].
    apply Hall. simpl. do 5 right. left.
Defined.

(** X2. The notebook run from cell 25 to cell 41 in order. It stops with
    [IndexError] when the user embedding file has no row for user 1; with
    such a row it stops with [ValueError] when some item vector has not
    the length of the user's vector and reaches the end otherwise. It
    never stops with a [NameError] or a [KeyError]. *)
Theorem notebook_outcome (files : Inputs) :
  (target_user_id ∉ Embedding.id <$> user_embedding_csv files →
   notebook files = inl IndexError) ∧
  (∀ u, iloc_0_1 (rows_with_id target_user_id (user_embedding_csv files)) = inr u →
     (Forall (λ r, length (Embedding.features r) = length u) (item_embedding_csv files) →
      ∃ env shown, notebook files = inr (env, shown)) ∧
     (¬ Forall (λ r, length (Embedding.features r) = length u) (item_embedding_csv files) →
      notebook files = inl ValueError)) ∧
  (∀ name, notebook files ≠ inl (NameError name)) ∧
  (∀ column, notebook files ≠ inl (KeyError column)).
Proof.
  assert (Hstop : ∀ u,
            iloc_0_1 (rows_with_id target_user_id (user_embedding_csv files)) = inr u →
            ¬ Forall (λ r, length (Embedding.features r) = length u)
                     (item_embedding_csv files) →
            notebook files = inl ValueError).
  { intros u Hu Hnot. unfold notebook, cell_29. simpl. rewrite Hu. simpl.
    unfold cell_32. simpl.
    change (series_map (score_row _)) with (series_map (score u)).
    by rewrite (series_map_score_ValueError _ _ Hnot). }
  assert (Hcases : notebook files = inl IndexError ∨ notebook files = inl ValueError ∨
                   ∃ env shown, notebook files = inr (env, shown)).
  { destruct (iloc_0_1 (rows_with_id target_user_id (user_embedding_csv files)))
      as [e|u] eqn:Hu.
    - left. unfold notebook, cell_29. simpl. rewrite Hu.
      unfold iloc_0_1 in Hu.
      destruct (rows_with_id _ _); [injection Hu as <-; reflexivity|discriminate].
    - right.
      destruct (decide (Forall (λ r, length (Embedding.features r) = length u)
                               (item_embedding_csv files))) as [Hall|Hnot].
      + right. apply notebook_completes. eauto.
      + left. by eapply Hstop. }
  split_and!.
  - intros Hnin. unfold notebook, cell_29. simpl.
    by rewrite (rows_with_id_nil _ _ Hnin).
  - intros u Hu. split; [|by apply Hstop].
    intros Hall. apply notebook_completes. eauto.
  - intros name Hname. destruct Hcases as [H|[H|(env & shown & H)]]; congruence.
  - intros column Hcol. destruct Hcases as [H|[H|(env & shown & H)]]; congruence.
Qed.

Lemma notebook_outcome_witness :
  notebook Examples.no_target_user = inl IndexError ∧
  notebook MoreExamples.ragged = inl ValueError ∧
  ∃ env shown, notebook Examples.small = inr (env, shown).
Proof.
  split_and!.
  - apply (proj1 (notebook_outcome Examples.no_target_user)).
    apply (bool_decide_unpack _). vm_compute. exact I.
  - apply (proj2 (proj1 (proj2 (notebook_outcome MoreExamples.ragged)) [1; 0]%float eq_refl)).
    intros Hall. rewrite Forall_forall in Hall.
    specialize (Hall (Embedding.mk 60 [1; 2; 3]%float)).
    assert (Hlen : 3 = 2); [|discriminate].
    apply Hall. simpl. do 5 right. left.
  - apply (proj1 (proj1 (proj2 (notebook_outcome Examples.small)) [1; 0]%float eq_refl)).
    repeat constructor.
Defined.

(** ** What the ranking selects *)

Lemma sim_ge_nan_l (a b : float) : sim_ge a b → is_nan a = true → is_nan b = true.
Proof.
  unfold sim_ge, nan_last_ge. intros Hab Ha.
  destruct (is_nan b) eqn:Hb; [done|]. simpl in Hab.
  apply leb_not_nan in Hab as [_ Ha']. congruence.
Qed.

(** X3. After a complete run the rows of [df_target_movieIds] are the
    best unwatched rows: the unwatched rows of the scored item table are,
    up to order, the recommended rows and the rows left out; no row left
    out has a score above that of a recommended row (a recommended row's
    score is at least the other's, or the other's is NaN); a row whose
    score is a number is never left out in favour of a row whose score is
    NaN; and rows are left out only when ten are recommended. *)
Theorem top_ten_are_the_best (files : Inputs) (env : Env) (shown : list Shown.row) :
  notebook files = inr (env, shown) →
  ∃ (w : gset Z) (rows best rest : list Scored.row),
    watched_ids env = Some w ∧
    df_movie_embedding env = WithSim rows ∧
    df_target_movieIds env = Some (Target.of_scored <$> best) ∧
    not_isin w rows ≡ₚ best ++ rest ∧
    (∀ a b, a ∈ best → b ∈ rest →
            is_nan (Scored.sim_value b) = true ∨
            (Scored.sim_value b <=? Scored.sim_value a)%float = true) ∧
    (∀ a b, a ∈ best → b ∈ rest →
            is_nan (Scored.sim_value a) = true → is_nan (Scored.sim_value b) = true) ∧
    (rest ≠ [] → length best = 10) ∧
    (length (not_isin w rows) ≤ 10 → rest = []).
Proof.
  intros (u & rows & _ & _ & -> & ->)%notebook_inr. simpl.
  set (w := movie_ids_of_user target_user_id (ratings_csv files)).
  set (sorted := sort_values_desc (not_isin w rows)).
  exists w, rows, (take 10 sorted), (drop 10 sorted).
  assert (Hsorted : StronglySorted sim_desc (take 10 sorted ++ drop 10 sorted)).
  { rewrite take_drop. apply sort_values_desc_sorted. }
  apply StronglySorted_app in Hsorted as (Hcross & _ & _).
  split_and!; try done.
  - rewrite take_drop. symmetry. apply sort_values_desc_perm.
  - intros a b Ha Hb. apply orb_true_iff. exact (Hcross a b Ha Hb).
  - intros a b Ha Hb. apply sim_ge_nan_l. exact (Hcross a b Ha Hb).
  - intros Hrest. rewrite length_take.
    destruct (decide (length sorted ≤ 10)) as [Hle|Hgt]; [|lia].
    by rewrite drop_ge in Hrest.
  - intros Hle. apply drop_ge. unfold sorted. by rewrite sort_values_desc_perm.
Qed.

Lemma top_ten_are_the_best_witness :
  ∃ env shown best rest,
    notebook Examples.recorded = inr (env, shown) ∧
    df_target_movieIds env = Some (Target.of_scored <$> best) ∧
    Scored.id <$> rest = [3600%Z] ∧
    ∀ a, a ∈ best → (0 <=? Scored.sim_value a)%float = true.
Proof.
  destruct (notebook Examples.recorded) as [e|[env shown]] eqn:Hrun;
    [vm_compute in Hrun; discriminate|].
  destruct (top_ten_are_the_best _ _ _ Hrun)
    as (w & rows & best & rest & Hw & Hrows & Htop & Hperm & Hbest & _ & Hten & _).
  exists env, shown, best, rest. split; [done|]. split; [done|].
  vm_compute in Hrun. injection Hrun as <- _.
  injection Hw as <-. injection Hrows as <-.
  assert (Hlen : length best = 10).
  { apply (f_equal (fmap length)) in Htop. simpl in Htop.
    rewrite length_fmap in Htop. by injection Htop as <-. }
  apply Permutation_length in Hperm as Hlens.
  rewrite length_app, Hlen in Hlens. vm_compute in Hlens.
  destruct rest as [|b [|b' rest]]; simpl in Hlens; try lia.
  assert (Hb : Scored.id b = 3600%Z ∧ Scored.sim_value b = 0%float).
  { assert (Hin : b ∈ best ++ [b]) by (apply elem_of_app; right; left).
    rewrite <- Hperm in Hin. vm_compute in Hin.
    assert (Hids : Target.id <$> (Target.of_scored <$> best)
                   = [2779; 2915; 2013; 3471; 311; 1470; 3505; 3499; 3250; 1442]%Z).
    { by injection Htop as <-. }
    rewrite <- list_fmap_compose in Hids.
    assert (Hnd : NoDup (Scored.id <$> (best ++ [b]))).
    { rewrite <- Hperm. apply (bool_decide_unpack _). vm_compute. exact I. }
    rewrite fmap_app in Hnd. apply NoDup_app in Hnd as (_ & Hdisj & _).
    assert (Hnot : Scored.id b ∉ Scored.id <$> best).
    { intros Hb. apply (Hdisj _ Hb). left. }
    change (Scored.id <$> best) with (Target.id ∘ Target.of_scored <$> best) in Hnot.
    rewrite Hids in Hnot.
    repeat (apply elem_of_cons in Hin as [->|Hin];
            [try (split; reflexivity); exfalso; apply Hnot; simpl;
             apply (bool_decide_unpack _); vm_compute; exact I|]).
    by apply elem_of_nil in Hin. }
  destruct Hb as [Hid Hsim]. split; [by rewrite fmap_cons, Hid|].
  intros a Ha. destruct (Hbest a b Ha) as [Hnan|Hle]; [left| |].
  - rewrite Hsim in Hnan. discriminate.
  - by rewrite Hsim in Hle.
Defined.

Lemma NoDup_target_movieIds (w : gset Z) (rows : list Scored.row) :
  NoDup (Scored.id <$> rows) → NoDup (Target.id <$> target_movieIds w rows).
Proof.
  intros Hnd. unfold target_movieIds, head, not_isin.
  rewrite <- list_fmap_compose.
  change (Target.id ∘ Target.of_scored) with Scored.id.
  eapply sublist_NoDup;
    [|apply (fmap_sublist Scored.id), sublist_take].
  rewrite sort_values_desc_perm.
  eapply sublist_NoDup; [exact Hnd|].
  apply (fmap_sublist Scored.id), sublist_filter.
Qed.

Lemma shown_ids_NoDup (top : list Target.row) (movies : list Movie.row) :
  NoDup (Movie.movieId <$> movies) →
  Shown.movieId <$> shown_table top movies
  = Target.id <$> filter (has_metadata movies) top.
Proof.
  intros Hnd. unfold shown_table. rewrite <- list_fmap_compose.
  induction top as [|l top IH]; [done|].
  rewrite merge_cons, fmap_app, IH, filter_cons. clear IH.
  pose proof (length_matches_NoDup movies l Hnd) as Hlen.
  destruct (decide (has_metadata movies l)) as [Hmeta|Hmeta].
  - destruct (matches movies l) as [|m [|m' ms]] eqn:Hms; simplify_eq/=.
    f_equal. assert (m ∈ matches movies l) as Hm by (rewrite Hms; left).
    by apply list_elem_of_filter in Hm as [Hm _].
  - by destruct (matches movies l).
Qed.

(** X4. After a complete run every row of [df_target_movieIds] carries
    the id of a row of the item embedding file that the target user has
    not rated, with the score the lambda of cell 32 gives for that row's
    features and the user's vector. When the ids of the item embedding
    file are distinct no id is recommended twice, and when the movieIds
    of movies.csv are distinct too no movie is shown twice. *)
Theorem recommendations_come_from_the_table
    (files : Inputs) (env : Env) (shown : list Shown.row) :
  notebook files = inr (env, shown) →
  ∃ (u : vector) (w : gset Z) (top : list Target.row),
    user_embedding env = Some u ∧
    watched_ids env = Some w ∧
    df_target_movieIds env = Some top ∧
    (∀ t, t ∈ top →
          ∃ r, r ∈ item_embedding_csv files ∧
               Embedding.id r = Target.id t ∧
               (Embedding.id r ∉ w) ∧
               sim_value_of u (Embedding.features r) = inr (Target.sim_value t)) ∧
    (NoDup (Embedding.id <$> item_embedding_csv files) →
     NoDup (Target.id <$> top) ∧
     (NoDup (Movie.movieId <$> movies_csv files) → NoDup (Shown.movieId <$> shown))).
Proof.
  intros (u & rows & _ & Hrows & -> & ->)%notebook_inr. simpl.
  set (w := movie_ids_of_user target_user_id (ratings_csv files)).
  exists u, w, (target_movieIds w rows). split_and!; try done.
  - intros t (r & Hr & Hw & ->)%elem_of_target_movieIds.
    apply series_map_inr in Hrows.
    apply list_elem_of_lookup_1 in Hr as [i Hi].
    destruct (Forall2_lookup_r _ _ _ _ _ Hrows Hi) as (r0 & Hr0 & Hscore).
    apply score_inr in Hscore as [<- Hs].
    exists (Scored.base r). split_and!; try done.
    by eapply list_elem_of_lookup_2.
  - intros Hnd.
    assert (Hids : NoDup (Scored.id <$> rows)).
    { apply series_map_score_base in Hrows. rewrite <- Hrows in Hnd.
      by rewrite <- list_fmap_compose in Hnd. }
    pose proof (NoDup_target_movieIds w rows Hids) as Htop.
    split; [done|]. intros Hmovies.
    rewrite (shown_ids_NoDup _ _ Hmovies).
    eapply sublist_NoDup; [exact Htop|].
    apply (fmap_sublist Target.id), sublist_filter.
Qed.

Lemma recommendations_come_from_the_table_witness :
  ∃ env shown top,
    notebook Examples.recorded = inr (env, shown) ∧
    df_target_movieIds env = Some top ∧
    NoDup (Target.id <$> top) ∧ NoDup (Shown.movieId <$> shown).
Proof.
  destruct (notebook Examples.recorded) as [e|[env shown]] eqn:Hrun;
    [vm_compute in Hrun; discriminate|].
  destruct (recommendations_come_from_the_table _ _ _ Hrun)
    as (u & w & top & _ & _ & Htop & _ & Hnd).
  destruct Hnd as [Hids Hshown].
  { apply (bool_decide_unpack _). vm_compute. exact I. }
  exists env, shown, top. split_and!; try done.
  apply Hshown. apply (bool_decide_unpack _). vm_compute. exact I.
Defined.

(** ** Running cells again *)

(** X5. After a complete run, running any of the cells 29, 32, 36, 39
    and 41 again changes nothing: each leaves every variable with the
    value it had, and cell 41 displays the same table. *)
Theorem rerunning_cells_changes_nothing
    (files : Inputs) (env : Env) (shown : list Shown.row) :
  notebook files = inr (env, shown) →
  cell_29 env = inr env ∧
  cell_32 env = inr env ∧
  cell_36 env = inr env ∧
  cell_39 env = inr env ∧
  cell_41 env = inr shown.
Proof.
  intros (u & rows & Hu & Hrows & -> & ->)%notebook_inr.
  cbv zeta. split_and!.
  - unfold cell_29. simpl. by rewrite Hu.
  - unfold cell_32. simpl.
    change (series_map (score_row _)) with (series_map (score u)).
    by rewrite (series_map_score_base _ _ _ Hrows), Hrows.
  - reflexivity.
  - reflexivity.
  - reflexivity.
Qed.

Lemma rerunning_cells_changes_nothing_witness :
  ∃ env shown,
    notebook Examples.small = inr (env, shown) ∧
    cell_32 env = inr env ∧ cell_39 env = inr env ∧ cell_41 env = inr shown.
Proof.
  destruct (notebook Examples.small) as [e|[env shown]] eqn:Hrun;
    [vm_compute in Hrun; discriminate|].
  destruct (rerunning_cells_changes_nothing _ _ _ Hrun) as (_ & H32 & _ & H39 & H41).
  by exists env, shown.
Defined.

(** ** What the ratings contribute *)

(** X6. The recommendations depend on ratings.csv only through the set
    of movieIds in the rows of user 1. If another ratings file has the
    same movieIds for user 1, whatever the rating values, the timestamps,
    the order, the repetitions and the rows of the other users, a run
    that completes on the first completes on the second with the same
    scored item table, the same [df_target_movieIds] and the same
    displayed table. *)
Theorem only_the_target_users_movie_ids_matter
    (files : Inputs) (ratings : list Rating.row) (env : Env) (shown : list Shown.row) :
  (∀ i, (∃ r, r ∈ ratings_csv files ∧
              Rating.userId r = target_user_id ∧ Rating.movieId r = i) ↔
        (∃ r, r ∈ ratings ∧
              Rating.userId r = target_user_id ∧ Rating.movieId r = i)) →
  notebook files = inr (env, shown) →
  ∃ env',
    notebook (with_ratings ratings files) = inr (env', shown) ∧
    df_target_movieIds env' = df_target_movieIds env ∧
    df_movie_embedding env' = df_movie_embedding env ∧
    watched_ids env' = watched_ids env ∧
    df_rating env' = ratings.
Proof.
  intros Hsame (u & rows & Hu & Hrows & -> & ->)%notebook_inr.
  assert (Hw : movie_ids_of_user target_user_id ratings
               = movie_ids_of_user target_user_id (ratings_csv files)).
  { apply set_eq. intros i. rewrite !elem_of_movie_ids_of_user. by rewrite Hsame. }
  set (w := movie_ids_of_user target_user_id (ratings_csv files)) in *.
  exists (mkEnv (movies_csv files) (WithSim rows) ratings (user_embedding_csv files)
                (Some u) (Some w) (Some (target_movieIds w rows))).
  split; [|done].
  apply notebook_inr. exists u, rows. unfold with_ratings.
  cbn [movies_csv item_embedding_csv ratings_csv user_embedding_csv].
  rewrite Hw. by split_and!.
Qed.

Lemma only_the_target_users_movie_ids_matter_witness :
  ∃ env env' shown,
    notebook Examples.small = inr (env, shown) ∧
    notebook (with_ratings MoreExamples.other_ratings Examples.small) = inr (env', shown) ∧
    df_target_movieIds env' = df_target_movieIds env.
Proof.
  destruct (notebook Examples.small) as [e|[env shown]] eqn:Hrun;
    [vm_compute in Hrun; discriminate|].
  destruct (only_the_target_users_movie_ids_matter
              Examples.small MoreExamples.other_ratings env shown)
    as (env' & Hrun' & Htop & _); [|exact Hrun|by exists env, env', shown].
  intros i. rewrite <- !elem_of_movie_ids_of_user.
  assert (Heq : movie_ids_of_user target_user_id (ratings_csv Examples.small)
                = movie_ids_of_user target_user_id MoreExamples.other_ratings);
    [|by rewrite Heq].
  apply set_eq. intros j. rewrite !elem_of_movie_ids_of_user. split.
  - intros (r & Hr & Hu & <-). vm_compute in Hr.
    repeat (apply elem_of_cons in Hr as [->|Hr]; [|]); [| |by apply elem_of_nil in Hr].
    + exists (Rating.mk 1 10 1 964982703). split_and!; try reflexivity.
      right. left.
    + discriminate.
  - intros (r & Hr & Hu & <-). vm_compute in Hr.
    repeat (apply elem_of_cons in Hr as [->|Hr]; [|]);
      [| | | |by apply elem_of_nil in Hr]; try discriminate.
    + exists (Rating.mk 1 10 4 964982703). split_and!; try reflexivity. left.
    + exists (Rating.mk 1 10 4 964982703). split_and!; try reflexivity. left.
Defined.

(** X7. The number cell 36 displays, [len(watched_ids)], is at most the
    number of rows of ratings.csv for user 1, and is that number when
    these rows carry distinct movieIds. *)
Theorem watched_count (env env' : Env) :
  cell_36 env = inr env' →
  ∃ n,
    len_watched_ids env' = inr n ∧
    n ≤ length (ratings_of_user target_user_id (df_rating env)) ∧
    (NoDup (Rating.movieId <$> ratings_of_user target_user_id (df_rating env)) →
     n = length (ratings_of_user target_user_id (df_rating env))).
Proof.
  intros [= <-]. eexists. split; [reflexivity|].
  unfold movie_ids_of_user. fold (ratings_of_user target_user_id (df_rating env)).
  set (ids := Rating.movieId <$> ratings_of_user target_user_id (df_rating env)).
  replace (length (ratings_of_user target_user_id (df_rating env))) with (length ids)
    by apply length_fmap.
  split; [|apply size_list_to_set].
  assert (Hdups : list_to_set (C:=gset Z) ids = list_to_set (remove_dups ids)).
  { apply set_eq. intros i. by rewrite !elem_of_list_to_set, elem_of_remove_dups. }
  rewrite Hdups, size_list_to_set by apply NoDup_remove_dups.
  clear. induction ids as [|i ids IH]; simpl; [done|].
  case_decide; simpl; lia.
Qed.

Lemma watched_count_witness :
  ∃ env, cell_36 (cell_25 Examples.recorded) = inr env ∧ len_watched_ids env = inr 2.
Proof.
  destruct (watched_count (cell_25 Examples.recorded) _ eq_refl) as (n & Hn & _ & Heq).
  eexists. split; [reflexivity|]. rewrite Hn. f_equal. apply Heq.
  apply (bool_decide_unpack _). vm_compute. exact I.
Defined.

(** ** The score in binary64 *)

Lemma is_zero_zero_or_nan (a : float) : is_zero a = true → zero_or_nan a.
Proof.
  unfold is_zero, zero_or_nan. rewrite FloatAxioms.eqb_spec.
  change (Prim2SF 0) with (S754_zero false). unfold SFeqb, SFcompare.
  destruct (Prim2SF a) as [s|s| |s m e]; try done; by destruct s.
Qed.

Lemma zero_or_nan_0 : zero_or_nan 0.
Proof. exact I. Qed.

Lemma zero_or_nan_mul_l (a b : float) : zero_or_nan a → zero_or_nan (a * b).
Proof.
  unfold zero_or_nan. rewrite mul_spec. unfold SF64mul, SFmul.
  by destruct (Prim2SF a), (Prim2SF b).
Qed.

Lemma zero_or_nan_mul_r (a b : float) : zero_or_nan b → zero_or_nan (a * b).
Proof.
  unfold zero_or_nan. rewrite mul_spec. unfold SF64mul, SFmul.
  by destruct (Prim2SF a), (Prim2SF b).
Qed.

Lemma zero_or_nan_add (a b : float) :
  zero_or_nan a → zero_or_nan b → zero_or_nan (a + b).
Proof.
  unfold zero_or_nan. rewrite add_spec. unfold SF64add, SFadd.
  destruct (Prim2SF a) as [[]|?| |? ? ?], (Prim2SF b) as [[]|?| |? ? ?]; done.
Qed.

Lemma zero_or_nan_sqrt (a : float) : zero_or_nan a → zero_or_nan (PrimFloat.sqrt a).
Proof.
  unfold zero_or_nan. rewrite sqrt_spec. unfold SF64sqrt, SFsqrt.
  by destruct (Prim2SF a).
Qed.

Lemma Prim2SF_nan (a : float) : Prim2SF a = S754_nan → a = nan.
Proof. intros Ha. by apply Prim2SF_inj. Qed.

Lemma zero_or_nan_div (a b : float) : zero_or_nan a → zero_or_nan b → (a / b)%float = nan.
Proof.
  unfold zero_or_nan. intros Ha Hb. apply Prim2SF_nan.
  rewrite div_spec. unfold SF64div, SFdiv.
  by destruct (Prim2SF a), (Prim2SF b).
Qed.

Lemma sub_nan_r (a : float) : (a - nan)%float = nan.
Proof.
  apply Prim2SF_nan. rewrite sub_spec. unfold SF64sub, SFsub.
  change (Prim2SF nan) with S754_nan. by destruct (Prim2SF a).
Qed.

Lemma clip_nan (lo hi : float) : clip nan lo hi = nan.
Proof.
  unfold clip. simpl. rewrite !ltb_spec. change (Prim2SF nan) with S754_nan.
  unfold SFltb, SFcompare. by destruct (Prim2SF hi).
Qed.

Lemma zero_or_nan_fold_dot (u v : vector) (acc : float) :
  zero_or_nan acc →
  Forall (λ p, zero_or_nan (p.1 * p.2)) (zip u v) →
  zero_or_nan (fold_left (λ acc p, acc + p.1 * p.2)%float (zip u v) acc).
Proof.
  intros Hacc Hall. revert acc Hacc.
  induction Hall as [|p l Hp _ IH]; intros acc Hacc; [done|].
  simpl. apply IH. by apply zero_or_nan_add.
Qed.

Lemma zero_or_nan_dot_l (u v : vector) : zero_vector u → zero_or_nan (dot u v).
Proof.
  intros Hu. apply zero_or_nan_fold_dot; [exact zero_or_nan_0|].
  revert v. induction Hu as [|a u Ha _ IH]; intros [|b v]; simpl; try done.
  constructor; [|apply IH]. by apply zero_or_nan_mul_l, is_zero_zero_or_nan.
Qed.

Lemma zero_or_nan_dot_r (u v : vector) : zero_vector v → zero_or_nan (dot u v).
Proof.
  intros Hv. apply zero_or_nan_fold_dot; [exact zero_or_nan_0|].
  revert u. induction Hv as [|b v Hb _ IH]; intros [|a u]; simpl; try done.
  constructor; [|apply IH]. by apply zero_or_nan_mul_r, is_zero_zero_or_nan.
Qed.

Lemma zero_vector_sim_value (u x : vector) :
  length u = length x → zero_vector u ∨ zero_vector x →
  sim_value_of u x = inr nan.
Proof.
  intros Hlen Hzero. unfold sim_value_of, cosine.
  rewrite decide_True by done. cbv zeta.
  cbn [num_sub num_div num_mul num_sqrt num0 num1 num2 binary64].
  assert (Huv : zero_or_nan (dot u x)).
  { destruct Hzero; [by apply zero_or_nan_dot_l|by apply zero_or_nan_dot_r]. }
  assert (Hn : zero_or_nan (PrimFloat.sqrt (dot u u * dot x x))).
  { apply zero_or_nan_sqrt. destruct Hzero.
    - by apply zero_or_nan_mul_l, zero_or_nan_dot_l.
    - by apply zero_or_nan_mul_r, zero_or_nan_dot_l. }
  rewrite (zero_or_nan_div _ _ Huv Hn), sub_nan_r, clip_nan.
  change (inr (1 - nan)%float = inr (B:=float) (A:=exn) nan). by rewrite sub_nan_r.
Qed.

(** X8. After a complete run, a row of the scored item table whose
    vector has only zero components has the score NaN, and when the
    target user's vector has only zero components every row has the
    score NaN, in the scored table and in the displayed one: the cosine
    distance divides by the product of the norms, and 0/0 is NaN in
    binary64. *)
Theorem zero_vectors_score_nan (files : Inputs) (env : Env) (shown : list Shown.row) :
  notebook files = inr (env, shown) →
  ∃ (u : vector) (rows : list Scored.row),
    user_embedding env = Some u ∧
    df_movie_embedding env = WithSim rows ∧
    (∀ r, r ∈ rows → zero_vector u ∨ zero_vector (Scored.features r) →
          Scored.sim_value r = nan) ∧
    (zero_vector u → ∀ s, s ∈ shown → Shown.sim_value s = nan).
Proof.
  intros (u & rows & _ & Hrows & -> & ->)%notebook_inr. simpl.
  exists u, rows.
  assert (Hnan : ∀ r, r ∈ rows → zero_vector u ∨ zero_vector (Scored.features r) →
                      Scored.sim_value r = nan).
  { intros r Hr Hzero. apply series_map_inr in Hrows.
    apply list_elem_of_lookup_1 in Hr as [i Hi].
    destruct (Forall2_lookup_r _ _ _ _ _ Hrows Hi) as (r0 & _ & Hscore).
    apply score_inr in Hscore as [<- Hs]. simpl in Hs.
    rewrite zero_vector_sim_value in Hs;
      [by injection Hs as <-|by eapply sim_value_of_inr_length|done]. }
  split_and!; try done.
  intros Hu s (t & m & Ht & _ & _ & ->)%elem_of_shown_table. simpl.
  apply elem_of_target_movieIds in Ht as (r & Hr & _ & ->). simpl.
  apply Hnan; auto.
Qed.

Lemma zero_vectors_score_nan_witness :
  ∃ env shown rows,
    notebook Examples.small = inr (env, shown) ∧
    df_movie_embedding env = WithSim rows ∧
    ∀ r, r ∈ rows → Scored.id r = 30%Z → Scored.sim_value r = nan.
Proof.
  destruct (notebook Examples.small) as [e|[env shown]] eqn:Hrun;
    [vm_compute in Hrun; discriminate|].
  destruct (zero_vectors_score_nan _ _ _ Hrun) as (u & rows & _ & Hrows & Hnan & _).
  exists env, shown, rows. split_and!; try done.
  intros r Hr Hid. apply Hnan; [done|]. right.
  vm_compute in Hrun. injection Hrun as <- _. injection Hrows as <-.
  repeat (apply elem_of_cons in Hr as [->|Hr];
          [try discriminate Hid; repeat constructor|]).
  by apply elem_of_nil in Hr.
Defined.

Lemma SFmul_comm (prec emax : Z) (x y : spec_float) :
  SFmul prec emax x y = SFmul prec emax y x.
Proof.
  destruct x as [sx|sx| |sx mx ex], y as [sy|sy| |sy my ey]; simpl;
    rewrite ?(xorb_comm sx sy); try reflexivity.
  by rewrite (Pos.mul_comm mx my), (Z.add_comm ex ey).
Qed.

Lemma float_mul_comm (a b : float) : (a * b = b * a)%float.
Proof. apply Prim2SF_inj. rewrite !mul_spec. apply SFmul_comm. Qed.

Lemma dot_comm (u v : vector) : dot u v = dot v u.
Proof.
  unfold dot. generalize (num0 (T:=float)). revert v.
  induction u as [|a u IH]; intros [|b v] acc; simpl; try reflexivity.
  rewrite (float_mul_comm a b). apply IH.
Qed.

(** X9. The score the lambda of cell 32 computes is the same, bit for
    bit, when the two vectors change places, and so is the refusal of
    vectors of different lengths: binary64 multiplication is
    commutative and the sums are accumulated in the same order. *)
Theorem sim_value_symmetric (u x : vector) : sim_value_of u x = sim_value_of x u.
Proof.
  unfold sim_value_of, cosine.
  destruct (decide (length u = length x)) as [Hlen|Hlen].
  - rewrite (decide_True (P:=length x = length u)) by done. cbv zeta.
    cbn [num_mul binary64].
    by rewrite (dot_comm x u), (float_mul_comm (dot x x)).
  - by rewrite (decide_False (P:=length x = length u)).
Qed.

(** ** The score in exact arithmetic: magnitudes do not count *)

Section exact_scaling.
Local Open Scope R_scope.

Lemma length_scale (k : R) (u : list R) : length (scale k u) = length u.
Proof. apply length_fmap. Qed.

Lemma nonzero_scale (k : R) (u : list R) : k ≠ 0 → nonzero u → nonzero (scale k u).
Proof.
  intros Hk. unfold nonzero, scale.
  induction 1 as [a u Ha|a u _ IH]; rewrite fmap_cons.
  - left. by apply Rmult_integral_contrapositive_currified.
  - by right.
Qed.

Lemma inner_scale (a b : R) (u v : list R) :
  inner (scale a u) (scale b v) = a * b * inner u v.
Proof.
  revert v. induction u as [|c u IH]; intros [|d v]; simpl; try lra.
  fold (scale a u) (scale b v). rewrite IH. ring.
Qed.

Lemma norm_scale (a : R) (u : list R) : norm (scale a u) = Rabs a * norm u.
Proof.
  unfold norm. rewrite inner_scale.
  rewrite sqrt_mult; [|nra|apply inner_self_nonneg].
  f_equal. apply sqrt_Rsqr_abs.
Qed.

Lemma sim_value_exact (u x : list R) :
  length u = length x → nonzero u → nonzero x →
  sim_value_of u x = inr (inner u x / (norm u * norm x)).
Proof.
  intros Hlen Hu Hx. unfold sim_value_of. rewrite (cosine_exact u x Hlen Hu Hx).
  simpl. unfold mret, result_ret. f_equal. lra.
Qed.

Lemma sim_value_scale (a b : R) (u x : list R) :
  a ≠ 0 → b ≠ 0 → length u = length x → nonzero u → nonzero x →
  sim_value_of (scale a u) (scale b x)
  = inr (a * b / (Rabs a * Rabs b) * (inner u x / (norm u * norm x))).
Proof.
  intros Ha Hb Hlen Hu Hx.
  rewrite sim_value_exact;
    [|by rewrite !length_scale|by apply nonzero_scale..].
  rewrite inner_scale, !norm_scale. f_equal.
  pose proof (norm_pos u Hu). pose proof (norm_pos x Hx).
  pose proof (Rabs_pos_lt a Ha). pose proof (Rabs_pos_lt b Hb).
  field. lra.
Qed.


End exact_scaling.

(** ** The order of the cells *)

(** X11. Cell 36 reads [df_rating] only and assigns [watched_ids] only:
    on any state of the variables, running it before cell 29 or before
    cell 32 gives the same variables, or the same exception, as running
    it after. Cell 39 needs both cell 36 and cell 32 before it and
    cell 41 needs cell 39: straight after the files are read cell 39
    stops with a [NameError] for [watched_ids], after cell 36 alone with
    a [KeyError] for the column [sim_value], and cell 41 stops with a
    [NameError] for [df_target_movieIds]. *)
Theorem cell_order (env : Env) (files : Inputs) :
  (env' ← cell_36 env; cell_29 env') = (env' ← cell_29 env; cell_36 env') ∧
  (env' ← cell_36 env; cell_32 env') = (env' ← cell_32 env; cell_36 env') ∧
  cell_39 (cell_25 files) = inl (NameError "watched_ids") ∧
  (env' ← cell_36 (cell_25 files); cell_39 env') = inl (KeyError "sim_value") ∧
  cell_41 (cell_25 files) = inl (NameError "df_target_movieIds").
Proof.
  split_and!; try reflexivity.
  - unfold cell_36, cell_29. simpl.
    by destruct (iloc_0_1 (rows_with_id target_user_id (df_user_embedding env))).
  - unfold cell_36, cell_32. simpl.
    change (score_row (set_watched_ids _ env)) with (score_row env).
    by destruct (series_map (score_row env) (frame_rows (df_movie_embedding env))).
Qed.
